(** * Feature chat orchestrator: sessions, trigger file, registry, websocket loop

    A shallow embedding of [server/services/feature_chat_session.py] and
    [server/routers/ai_features.py].  Python values are modelled by the JSON
    value type below, exceptions by an error result, the objects a session
    shares with the registry by a heap of session records, and everything
    the program does not control (the agent's response stream, the files the
    agent writes, store faults) by explicit environment arguments. *)

From Stdlib Require Import ZArith Ascii String Floats.SpecFloat.
From stdpp Require Import gmap strings list fin_maps.

Set Warnings "-register-all".
Local Open Scope string_scope.
Local Open Scope list_scope.

(** ** Python values *)

(** What [json.loads] produces: [None], [bool], [int], [float], [str],
    [list] and [dict].  A dict is an association list in insertion order;
    a decoded dict binds each key once, and look-up takes the first binding. *)
Inductive json : Type :=
  | JNull
  | JBool (b : bool)
  | JInt (n : Z)
  | JFloat (f : spec_float)
  | JStr (s : string)
  | JArr (items : list json)
  | JObj (fields : list (string * json)).

(** A text (a file's contents, a websocket frame) is represented by what
    [json.loads] makes of it: [None] when decoding raises. *)
Definition text : Type := option json.

(** Results of code that may raise; the payload is [str(e)]. *)
Inductive result (A : Type) : Type :=
  | Ok (a : A)
  | Raise (e : string).
Arguments Ok {A} a.
Arguments Raise {A} e.

Definition bind {A B : Type} (r : result A) (k : A -> result B) : result B :=
  match r with
  | Ok a => k a
  | Raise e => Raise e
  end.

Notation "'let!' x ':=' r 'in' k" := (bind r (fun x => k))
  (at level 10, x name, r at level 100, k at level 200).

(** [needle in hay] on two [str]s. *)
Fixpoint is_prefix (p s : string) : bool :=
  match p, s with
  | EmptyString, _ => true
  | String a p', String b s' => if Ascii.eqb a b then is_prefix p' s' else false
  | String _ _, EmptyString => false
  end.

Fixpoint str_contains (needle hay : string) : bool :=
  is_prefix needle hay ||
  match hay with
  | EmptyString => false
  | String _ hay' => str_contains needle hay'
  end.

Fixpoint dict_get (k : string) (fields : list (string * json)) : option json :=
  match fields with
  | [] => None
  | (k', v) :: rest => if String.eqb k' k then Some v else dict_get k rest
  end.

(** [k == x] for a [str] [k]: only an equal [str] compares equal. *)
Definition str_eq_value (k : string) (x : json) : bool :=
  match x with
  | JStr s => String.eqb k s
  | _ => false
  end.

Definition type_name (v : json) : string :=
  match v with
  | JNull => "NoneType"
  | JBool _ => "bool"
  | JInt _ => "int"
  | JFloat _ => "float"
  | JStr _ => "str"
  | JArr _ => "list"
  | JObj _ => "dict"
  end.

(** [k in v]: key membership on a dict, element membership on a list,
    substring on a str, [TypeError] on anything else. *)
Definition py_in (k : string) (v : json) : result bool :=
  match v with
  | JObj fields => Ok (bool_decide (is_Some (dict_get k fields)))
  | JArr items => Ok (existsb (str_eq_value k) items)
  | JStr s => Ok (str_contains k s)
  | _ => Raise ("argument of type '" +:+ type_name v +:+ "' is not iterable")
  end.

(** [v.get(k, dflt)]: only a dict has [get]; anything else raises
    [AttributeError]. *)
Definition py_get (v : json) (k : string) (dflt : json) : result json :=
  match v with
  | JObj fields => Ok (default dflt (dict_get k fields))
  | _ => Raise ("'" +:+ type_name v +:+ "' object has no attribute 'get'")
  end.

(** [v[k]] for a [str] key. *)
Definition py_getitem (v : json) (k : string) : result json :=
  match v with
  | JObj fields =>
      match dict_get k fields with
      | Some x => Ok x
      | None => Raise ("'" +:+ k +:+ "'")
      end
  | JArr _ => Raise "list indices must be integers or slices, not str"
  | JStr _ => Raise "string indices must be integers, not 'str'"
  | _ => Raise ("'" +:+ type_name v +:+ "' object is not subscriptable")
  end.

(** [bool(v)]. *)
Definition truthy (v : json) : bool :=
  match v with
  | JNull => false
  | JBool b => b
  | JInt n => negb (n =? 0)%Z
  | JFloat (S754_zero _) => false
  | JFloat _ => true
  | JStr EmptyString => false
  | JStr _ => true
  | JArr [] => false
  | JArr _ => true
  | JObj [] => false
  | JObj _ => true
  end.

(** [isinstance(v, int)], with the integer it is; [bool] is a subclass of
    [int] ([True == 1], [False == 0]). *)
Definition as_int (v : json) : option Z :=
  match v with
  | JInt n => Some n
  | JBool true => Some 1%Z
  | JBool false => Some 0%Z
  | _ => None
  end.

(** ** The feature schema and the project store *)

(** The request schema [FeatureCreate] of [server/schemas.py]: the fields
    the session passes to it.  The schema's own validation is a parameter
    of the development ([schema_accepts] below). *)
Module FeatureCreate.
Record t : Type := mk {
  name : json;
  description : json;
  category : json;
  priority : json;
  steps : json;
}.
End FeatureCreate.

(** Modelled from the spec: the [Feature] entity of the Project Store
    ([_get_db_classes] is not among the sources), "fields priority,
    category, name, description, steps, passes", and the identifier read
    back after the commit. *)
Module Feature.
Record t : Type := mk {
  id : Z;
  priority : Z;
  category : json;
  name : json;
  description : json;
  steps : json;
  passes : bool;
}.
End Feature.

(** Modelled from the spec: [session.query(Feature).order_by(
    Feature.priority.desc()).first()], "the current maximum priority among
    existing features": a row of greatest priority, [None] on an empty
    table. *)
Definition first_by_priority_desc (rows : list Feature.t) : option Feature.t :=
  foldr (fun r best =>
           match best with
           | None => Some r
           | Some m => if (Feature.priority m <? Feature.priority r)%Z
                       then Some r else Some m
           end) None rows.

(** Modelled from the spec: the identifier the store assigns to a new row
    (one more than the greatest identifier in the table). *)
Definition fresh_id (rows : list Feature.t) : Z :=
  (1 + foldr Z.max 0 (Feature.id <$> rows))%Z.

(** What a session sees of the world outside the process: three files and
    the project's store.
    - [skill]: [ROOT_DIR/.claude/commands/create-feature.md], [None] when
      the file does not exist;
    - [trigger_file]: [project_dir/.new_feature.json];
    - [settings_file]: [project_dir/.claude_feature_settings.json];
    - [features]: the rows of the project's [Feature] table;
    - [db_faults]: for each coming store transaction in turn, whether it
      raises ([true]); a transaction past the end of the list succeeds. *)
Record World : Type := mkWorld {
  skill : option string;
  trigger_file : option text;
  settings_file : option json;
  features : list Feature.t;
  db_faults : list bool;
}.

Definition set_trigger_file (t : option text) (w : World) : World :=
  mkWorld (skill w) t (settings_file w) (features w) (db_faults w).

Definition set_settings_file (j : option json) (w : World) : World :=
  mkWorld (skill w) (trigger_file w) j (features w) (db_faults w).

Definition set_features (rows : list Feature.t) (w : World) : World :=
  mkWorld (skill w) (trigger_file w) (settings_file w) rows (db_faults w).

Definition set_db_faults (fs : list bool) (w : World) : World :=
  mkWorld (skill w) (trigger_file w) (settings_file w) (features w) fs.

Section WithSchema.

(** Whether [FeatureCreate(...)] accepts its arguments; when it does not,
    the constructor raises a validation error. *)
Variable schema_accepts : FeatureCreate.t -> bool.

(** [FeatureChatSession._create_feature_in_db]. *)
Definition _create_feature_in_db (data : json) (w : World)
  : result Feature.t * World :=
  let prepared :=
    (* priority = 1; if data.get("priority"): p = ...; if isinstance(p, int) *)
    let! p := py_get data "priority" JNull in
    let priority :=
      if truthy p then match as_int p with Some n => n | None => 1%Z end
      else 1%Z in
    let! steps := py_get data "steps" (JArr []) in
    let! name := py_getitem data "name" in
    let! description := py_getitem data "description" in
    let! category := py_get data "category" (JStr "General") in
    let feature_create :=
      FeatureCreate.mk name description category (JInt priority) steps in
    if schema_accepts feature_create then Ok feature_create
    else Raise "validation error for FeatureCreate" in
  match prepared with
  | Raise e => (Raise e, w)
  | Ok feature_create =>
      (* with get_db_session(self.project_dir) as session: *)
      match db_faults w with
      | true :: faults => (Raise "database error", set_db_faults faults w)
      | faults =>
          let w := set_db_faults (tail faults) w in
          let priority :=
            match FeatureCreate.priority feature_create with
            | JNull | JStr _ =>
                match first_by_priority_desc (features w) with
                | Some max_priority => Some (Feature.priority max_priority + 1)%Z
                | None => Some 1%Z
                end
            | p => as_int p
            end in
          match priority with
          | None => (Raise "database error", w)
          | Some priority =>
              let db_feature :=
                Feature.mk (fresh_id (features w)) priority
                  (FeatureCreate.category feature_create)
                  (FeatureCreate.name feature_create)
                  (FeatureCreate.description feature_create)
                  (FeatureCreate.steps feature_create)
                  false in
              (Ok db_feature, set_features (features w ++ [db_feature]) w)
          end
      end
  end.

(** ** The agent client *)

(** The blocks of an assistant message, by [type(block).__name__].  The
    [Write] and [Edit] tools take their [file_path] as a [str], so of a tool
    invocation's input only that argument is kept: [None] when the key is
    absent, and [str(file_path)] is the string itself. *)
Inductive ContentBlock : Type :=
  | TextBlock (text : string)
  | ToolUseBlock (name : string) (file_path : option string)
  | OtherBlock.

(** The messages of a response stream, by [type(msg).__name__]. *)
Inductive Message : Type :=
  | AssistantMessage (content : list ContentBlock)
  | UserMessage
  | OtherMessage.

(** One step of a response stream: what the agent's tools have made of the
    trigger file since the previous message ([None]: left as it was;
    [Some None]: removed; [Some (Some t)]: written with text [t]), and the
    message then received. *)
Record Event : Type := mkEvent {
  disk : option (option text);
  msg : Message;
}.

(** The agent's side of one turn: whether [client.query] raises, the
    events [client.receive_response()] produces, and whether the stream
    raises after them. *)
Record Turn : Type := mkTurn {
  query_error : option string;
  events : list Event;
  stream_error : option string;
}.

Record ImageAttachment : Type := mkImageAttachment {
  mimeType : string;
  base64Data : string;
}.

(** What [client.query] is called with: the message, or the content blocks
    of one multimodal user message. *)
Inductive QueryBlock : Type :=
  | TextPart (text : string)
  | ImagePart (media_type data : string).

Inductive Query : Type :=
  | TextQuery (message : string)
  | MultimodalQuery (content_blocks : list QueryBlock).

(** A [ClaudeSDKClient] object: whether [__aenter__] has connected it, and
    the queries made on it, oldest first. *)
Record ClaudeSDKClient : Type := mkClient {
  connected : bool;
  sent : list Query;
}.

(** ** The session *)

(** An entry of [self.messages] (its wall-clock [timestamp] is left out). *)
Record ChatMessage : Type := mkChatMessage {
  role : string;
  content : string;
  has_attachments : option bool;
}.

(** [FeatureChatSession] ([created_at], a wall-clock reading that nothing
    reads, is left out). *)
Record FeatureChatSession : Type := mkSession {
  project_name : string;
  project_dir : string;
  client : option ClaudeSDKClient;
  messages : list ChatMessage;
  complete : bool;
  _client_entered : bool;
  created_feature_id : option Z;
}.

(** [FeatureChatSession.__init__]. *)
Definition new_session (project_name project_dir : string) : FeatureChatSession :=
  mkSession project_name project_dir None [] false false None.

Definition set_client (c : option ClaudeSDKClient) (s : FeatureChatSession)
  : FeatureChatSession :=
  mkSession (project_name s) (project_dir s) c (messages s) (complete s)
    (_client_entered s) (created_feature_id s).

Definition set_client_entered (b : bool) (s : FeatureChatSession)
  : FeatureChatSession :=
  mkSession (project_name s) (project_dir s) (client s) (messages s)
    (complete s) b (created_feature_id s).

Definition append_message (m : ChatMessage) (s : FeatureChatSession)
  : FeatureChatSession :=
  mkSession (project_name s) (project_dir s) (client s) (messages s ++ [m])
    (complete s) (_client_entered s) (created_feature_id s).

Definition mark_created (feature_id : Z) (s : FeatureChatSession)
  : FeatureChatSession :=
  mkSession (project_name s) (project_dir s) (client s) (messages s)
    true (_client_entered s) (Some feature_id).

(** The chunks a session yields, as the dicts they are. *)
Definition text_chunk (t : string) : json :=
  JObj [("type", JStr "text"); ("content", JStr t)].

Definition error_chunk (e : string) : json :=
  JObj [("type", JStr "error"); ("content", JStr e)].

Definition response_done : json :=
  JObj [("type", JStr "response_done")].

Definition feature_created_chunk (feature : json) : json :=
  JObj [("type", JStr "feature_created"); ("feature", feature)].

(** [FeatureChatSession.close]: the [finally] clause runs whether or not
    [__aexit__] raises, so [aexit_raises] only decides what is logged. *)
Definition close (aexit_raises : bool) (s : FeatureChatSession)
  : FeatureChatSession :=
  match client s with
  | Some _ =>
      if _client_entered s then set_client None (set_client_entered false s)
      else s
  | None => s
  end.

(** The locals of [_query_claude]'s loop. *)
Record Locals : Type := mkLocals {
  current_text : string;
  pending_feature_json_write : bool;
}.

(** The state of a running generator: the chunks yielded so far (oldest
    first), whether it has returned, and the state it works on.  The
    generator is run to its end, as the handler's [async for] does. *)
Record Run : Type := mkRun {
  yielded : list json;
  returned : bool;
  locals : Locals;
  session : FeatureChatSession;
  world : World;
}.

(** One block of an assistant message. *)
Definition on_block (block : ContentBlock) (r : Run) : Run :=
  match block with
  | TextBlock text =>
      if truthy (JStr text) then
        mkRun (yielded r ++ [text_chunk text]) (returned r)
          (mkLocals (current_text (locals r) +:+ text)
             (pending_feature_json_write (locals r)))
          (append_message (mkChatMessage "assistant" text None) (session r))
          (world r)
      else r
  | ToolUseBlock name file_path =>
      if String.eqb name "Write" || String.eqb name "Edit" then
        if str_contains ".new_feature.json" (default "" file_path) then
          mkRun (yielded r) (returned r)
            (mkLocals (current_text (locals r)) true) (session r) (world r)
        else r
      else r
  | OtherBlock => r
  end.

(** The body of the [try] of a tool result: the chunk to yield and the new
    session and world when the feature is created, [Ok None] when a
    required field is not there. *)
Definition try_create (content_text : text) (s : FeatureChatSession) (w : World)
  : result (option json) * FeatureChatSession * World :=
  match content_text with
  | None => (Raise "Expecting value", s, w)
  | Some content =>
      let verified :=
        let! has_name := py_in "name" content in
        if has_name then py_in "description" content else Ok false in
      match verified with
      | Raise e => (Raise e, s, w)
      | Ok false => (Ok None, s, w)
      | Ok true =>
          match _create_feature_in_db content w with
          | (Raise e, w') => (Raise e, s, w')
          | (Ok created_feature, w') =>
              (Ok (Some (feature_created_chunk content)),
               mark_created (Feature.id created_feature) s, w')
          end
      end
  end.

(** A [UserMessage] (a tool result). *)
Definition on_tool_result (r : Run) : Run :=
  if pending_feature_json_write (locals r) then
    let cleared := mkLocals (current_text (locals r)) false in
    match trigger_file (world r) with
    | Some content_text =>
        match try_create content_text (session r) (world r) with
        | (Ok (Some chunk), s, w) =>
            (* yield; trigger_file.unlink(); return *)
            mkRun (yielded r ++ [chunk]) true cleared s (set_trigger_file None w)
        | (Ok None, s, w) =>
            mkRun (yielded r) (returned r) cleared s w
        | (Raise e, s, w) =>
            mkRun (yielded r ++ [error_chunk "Failed to create feature from definition."])
              (returned r) cleared s w
        end
    | None => mkRun (yielded r) (returned r) cleared (session r) (world r)
    end
  else r.

Definition on_message (m : Message) (r : Run) : Run :=
  match m with
  | AssistantMessage content => foldl (fun r block => on_block block r) r content
  | UserMessage => on_tool_result r
  | OtherMessage => r
  end.

Definition apply_disk (d : option (option text)) (w : World) : World :=
  match d with
  | Some t => set_trigger_file t w
  | None => w
  end.

(** [async for msg in self.client.receive_response()]: after a [return]
    no further event is taken from the stream. *)
Fixpoint receive_loop (evs : list Event) (r : Run) : Run :=
  match evs with
  | [] => r
  | ev :: rest =>
      let r1 :=
        on_message (msg ev)
          (mkRun (yielded r) (returned r) (locals r) (session r)
             (apply_disk (disk ev) (world r))) in
      if returned r1 then r1 else receive_loop rest r1
  end.

(** The argument of [client.query]. *)
Definition build_query (message : string)
    (attachments : option (list ImageAttachment)) : Query :=
  match attachments with
  | Some (att :: atts) =>
      MultimodalQuery
        ((if truthy (JStr message) then [TextPart message] else []) ++
         map (fun att => ImagePart (mimeType att) (base64Data att)) (att :: atts))
  | _ => TextQuery message
  end.

(** The result of draining a generator: its chunks, the exception that
    ended it if one did, and the state it leaves. *)
Record Drained : Type := mkDrained {
  chunks : list json;
  raised : option string;
  final_session : FeatureChatSession;
  final_world : World;
}.

(** [FeatureChatSession._query_claude]. *)
Definition _query_claude (message : string)
    (attachments : option (list ImageAttachment)) (turn : Turn)
    (s : FeatureChatSession) (w : World) : Drained :=
  match client s with
  | None => mkDrained [] None s w
  | Some c =>
      let s := set_client
                 (Some (mkClient (connected c)
                          (sent c ++ [build_query message attachments]))) s in
      match query_error turn with
      | Some e => mkDrained [] (Some e) s w
      | None =>
          let r := receive_loop (events turn)
                     (mkRun [] false (mkLocals "" false) s w) in
          mkDrained (yielded r)
            (if returned r then None else stream_error turn)
            (session r) (world r)
      end
  end.

(** [FeatureChatSession.send_message]. *)
Definition send_message (user_message : string)
    (attachments : option (list ImageAttachment)) (turn : Turn)
    (s : FeatureChatSession) (w : World) : Drained :=
  match client s with
  | None => mkDrained [error_chunk "Session not initialized"] None s w
  | Some _ =>
      let s :=
        append_message
          (mkChatMessage "user" user_message
             (Some match attachments with Some (_ :: _) => true | _ => false end))
          s in
      let d := _query_claude user_message attachments turn s w in
      match raised d with
      | None =>
          mkDrained (chunks d ++ [response_done]) None
            (final_session d) (final_world d)
      | Some e =>
          mkDrained (chunks d ++ [error_chunk e]) None
            (final_session d) (final_world d)
      end
  end.

(** How opening the agent client goes: [ClaudeSDKClient(...)] may raise,
    and so may [__aenter__] on the constructed client. *)
Inductive OpenOutcome : Type :=
  | OpenOk
  | ConstructRaises (e : string)
  | EnterRaises (e : string).

Definition security_settings : json :=
  JObj [("sandbox", JObj [("enabled", JBool false)]);
        ("permissions",
         JObj [("defaultMode", JStr "acceptEdits");
               ("allow", JArr [JStr "Read(./**)"; JStr "Write(./**)";
                               JStr "Edit(./**)"; JStr "Glob(./**)"])])].

(** [FeatureChatSession.start]. *)
Definition start (open : OpenOutcome) (turn : Turn)
    (s : FeatureChatSession) (w : World) : Drained :=
  match skill w with
  | None => mkDrained [error_chunk "Skill not found"] None s w
  | Some skill_content =>
      (* if trigger_file.exists(): trigger_file.unlink() *)
      let w := set_trigger_file None w in
      let w := set_settings_file (Some security_settings) w in
      match open with
      | ConstructRaises e => mkDrained [error_chunk e] None s w
      | EnterRaises e =>
          mkDrained [error_chunk e] None
            (set_client (Some (mkClient false [])) s) w
      | OpenOk =>
          let s := set_client_entered true
                     (set_client (Some (mkClient true [])) s) in
          let d := _query_claude "I want to add a new feature." None turn s w in
          match raised d with
          | None =>
              mkDrained (chunks d ++ [response_done]) None
                (final_session d) (final_world d)
          | Some e =>
              mkDrained (chunks d ++ [error_chunk e]) None
                (final_session d) (final_world d)
          end
      end
  end.

(** ** The session registry *)

(** Session objects live in a heap and are named by their address; the
    module-level dict [_sessions] maps project names to addresses, and so
    does the handler's local [session].  Objects are never freed. *)
Record Registry : Type := mkRegistry {
  _sessions : gmap string nat;
  heap : list FeatureChatSession;
}.

Definition get_session (project_name : string) (reg : Registry) : option nat :=
  _sessions reg !! project_name.

(** Runs [f] on the session at address [a]. *)
Definition update_at (a : nat) (f : FeatureChatSession -> FeatureChatSession)
    (reg : Registry) : Registry :=
  match heap reg !! a with
  | Some s => mkRegistry (_sessions reg) (<[a := f s]> (heap reg))
  | None => reg
  end.

(** The block of [create_session] under [_sessions_lock]: the evicted
    session if there was one, the new session, and the registry as the
    other tasks see it once the lock is released. *)
Definition create_session_locked (project_name project_dir : string)
    (reg : Registry) : option nat * nat * Registry :=
  let old_session := _sessions reg !! project_name in
  let popped := delete project_name (_sessions reg) in
  let session := length (heap reg) in
  (old_session, session,
   mkRegistry (<[project_name := session]> popped)
     (heap reg ++ [new_session project_name project_dir])).

(** [create_session]. *)
Definition create_session (aexit_raises : bool)
    (project_name project_dir : string) (reg : Registry) : nat * Registry :=
  let '(old_session, session, reg) :=
    create_session_locked project_name project_dir reg in
  match old_session with
  | Some old => (session, update_at old (close aexit_raises) reg)
  | None => (session, reg)
  end.

(** [remove_session]. *)
Definition remove_session (aexit_raises : bool) (project_name : string)
    (reg : Registry) : Registry :=
  let session := _sessions reg !! project_name in
  let reg := mkRegistry (delete project_name (_sessions reg)) (heap reg) in
  match session with
  | Some a => update_at a (close aexit_raises) reg
  | None => reg
  end.

(** [cleanup_all_sessions]. *)
Definition cleanup_all_sessions (aexit_raises : bool) (reg : Registry)
  : Registry :=
  let sessions := (map_to_list (_sessions reg)).*2 in
  foldl (fun reg a => update_at a (close aexit_raises) reg)
    (mkRegistry ∅ (heap reg)) sessions.

(** ** The websocket handler *)

(** Code points on which [str.isspace] holds, below 256. *)
Definition is_space (c : ascii) : bool :=
  bool_decide (nat_of_ascii c ∈ [9; 10; 11; 12; 13; 28; 29; 30; 31; 32; 133; 160]).

Fixpoint lstrip (s : string) : string :=
  match s with
  | String c s' => if is_space c then lstrip s' else s
  | EmptyString => EmptyString
  end.

(** [s.strip()]. *)
Definition strip (s : string) : string :=
  String.rev (lstrip (String.rev (lstrip s))).

(** [v.strip()]: only a [str] has it. *)
Definition py_strip (v : json) : result string :=
  match v with
  | JStr s => Ok (strip s)
  | _ => Raise ("'" +:+ type_name v +:+ "' object has no attribute 'strip'")
  end.

(** What the world does while one inbound frame is handled. *)
Record FrameEnv : Type := mkFrameEnv {
  aexit_raises : bool;
  open_outcome : OpenOutcome;
  turn : Turn;
}.

(** The handler's state: the registry shared with every other connection,
    the world of this project, and the local variable [session]. *)
Record Handler : Type := mkHandler {
  registry : Registry;
  project_world : World;
  local_session : option nat;
}.

(** How one iteration of [while True] ends: with the next iteration, or
    with an exception other than [JSONDecodeError] leaving the loop. *)
Inductive Iteration : Type :=
  | Continue
  | Escapes (e : string).

(** Drains a generator of the session at address [a], relaying its chunks. *)
Definition relay (a : nat)
    (gen : FeatureChatSession -> World -> Drained) (h : Handler)
  : list json * Handler :=
  match heap (registry h) !! a with
  | Some s =>
      let d := gen s (project_world h) in
      (chunks d,
       mkHandler
         (mkRegistry (_sessions (registry h))
            (<[a := final_session d]> (heap (registry h))))
         (final_world d) (local_session h))
  | None => ([], h)
  end.

(** The body of [while True] on a received frame: the frames sent, how the
    iteration ends, and the handler's state. *)
Definition on_frame (project_name project_path : string)
    (data : text) (env : FrameEnv) (h : Handler)
  : list json * Iteration * Handler :=
  match data with
  | None => ([error_chunk "Invalid JSON"], Continue, h)
  | Some message =>
      match py_get message "type" JNull with
      | Raise e => ([], Escapes e, h)
      | Ok msg_type =>
          if str_eq_value "ping" msg_type then
            ([JObj [("type", JStr "pong")]], Continue, h)
          else if str_eq_value "start" msg_type then
            let '(a, reg) :=
              create_session (aexit_raises env) project_name project_path
                (registry h) in
            let h := mkHandler reg (project_world h) (Some a) in
            let '(out, h) := relay a (start (open_outcome env) (turn env)) h in
            (out, Continue, h)
          else if str_eq_value "message" msg_type then
            let found :=
              match local_session h with
              | Some a => Some a
              | None => get_session project_name (registry h)
              end in
            match found with
            | None =>
                ([error_chunk "No active session. Send 'start' first."],
                 Continue, h)
            | Some a =>
                let h := mkHandler (registry h) (project_world h) (Some a) in
                match (let! c := py_get message "content" (JStr "") in py_strip c) with
                | Raise e => ([], Escapes e, h)
                | Ok user_content =>
                    if truthy (JStr user_content) then
                      let '(out, h) :=
                        relay a (send_message user_content None (turn env)) h in
                      (out, Continue, h)
                    else ([], Continue, h)
                end
            end
          else ([], Continue, h)
      end
  end.

(** How the handler ends: the client disconnects ([receive_text] raises
    [WebSocketDisconnect] once the frames are exhausted), or an exception
    leaves the loop after a best-effort error frame. *)
Inductive LoopEnd : Type :=
  | Disconnected
  | Failed (e : string).

(** [while True] over the frames the client sends before it disconnects. *)
Fixpoint receive_frames (project_name project_path : string)
    (frames : list (text * FrameEnv)) (h : Handler)
  : list json * LoopEnd * Handler :=
  match frames with
  | [] => ([], Disconnected, h)
  | (data, env) :: rest =>
      match on_frame project_name project_path data env h with
      | (out, Continue, h) =>
          let '(out', e, h) := receive_frames project_name project_path rest h in
          (out ++ out', e, h)
      | (out, Escapes e, h) => (out ++ [error_chunk e], Failed e, h)
      end
  end.

(** [ai_feature_chat_websocket]: [None] when the project path does not
    exist and the socket is closed with code 4004 before it is accepted. *)
Definition ai_feature_chat_websocket (project_name project_path : string)
    (path_exists : bool) (frames : list (text * FrameEnv))
    (reg : Registry) (w : World)
  : option (list json * LoopEnd * Handler) :=
  if path_exists then
    Some (receive_frames project_name project_path frames
            (mkHandler reg w None))
  else None.

End WithSchema.

(** ** A reference schema *)

(** Modelled from the spec: the [FeatureCreate] schema ([server/schemas.py]
    is not among the sources), after the Feature Definition of the data
    model: name, description and category are texts, priority is an
    integer, steps is a sequence of texts.  The theorems below hold for
    every schema; this one instantiates them on concrete inputs. *)
Definition typed_schema (fc : FeatureCreate.t) : bool :=
  match FeatureCreate.name fc, FeatureCreate.description fc,
        FeatureCreate.category fc, FeatureCreate.priority fc,
        FeatureCreate.steps fc with
  | JStr _, JStr _, JStr _, JInt _, JArr items =>
      forallb (fun x => match x with JStr _ => true | _ => false end) items
  | _, _, _, _, _ => false
  end.

(** 2.5 as a binary64: 5629499534213120 * 2^-51. *)
Definition float_2_5 : spec_float :=
  S754_finite false 5629499534213120 (-51).

(** The priority [_create_feature_in_db] passes to the schema. *)
Definition passed_priority (fields : list (string * json)) : Z :=
  let p := default JNull (dict_get "priority" fields) in
  if truthy p then default 1%Z (as_int p) else 1%Z.

(** The arguments [_create_feature_in_db] passes to the schema. *)
Definition schema_arguments (fields : list (string * json)) (name description : json)
  : FeatureCreate.t :=
  FeatureCreate.mk name description
    (default (JStr "General") (dict_get "category" fields))
    (JInt (passed_priority fields))
    (default (JArr []) (dict_get "steps" fields)).

(** The row inserted for a definition the schema accepts. *)
Definition inserted_row (fields : list (string * json)) (name description : json)
    (w : World) : Feature.t :=
  Feature.mk (fresh_id (features w)) (passed_priority fields)
    (default (JStr "General") (dict_get "category" fields))
    name description
    (default (JArr []) (dict_get "steps" fields))
    false.

(** The next store transaction does not raise. *)
Definition store_up (w : World) : Prop := head (db_faults w) <> Some true.

(** [int] and [float] values. *)
Definition numeric (p : json) : bool :=
  match p with
  | JInt _ | JFloat _ => true
  | _ => false
  end.

Definition definition_XY : json :=
  JObj [("name", JStr "X"); ("description", JStr "Y")].

(** A store with one feature, of priority 3. *)
Definition store_with_priority_3 : World :=
  mkWorld (Some "skill") None None
    [Feature.mk 1 3 (JStr "UI") (JStr "Login") (JStr "Sign in") (JArr []) true]
    [].

Definition empty_store : World := mkWorld (Some "skill") None None [] [].

(** ** Vocabulary of the statements *)

(** The session is complete exactly when it holds a created feature's
    identifier. *)
Definition completion_invariant (s : FeatureChatSession) : Prop :=
  complete s = true <-> created_feature_id s <> None.

(** What an operation may do to the completion fields: leave them and the
    rows as they are, or insert one row with [passes = False] and set both
    fields from it. *)
Definition completion_step (s : FeatureChatSession) (w : World)
    (s' : FeatureChatSession) (w' : World) : Prop :=
  (complete s' = complete s /\
   created_feature_id s' = created_feature_id s /\
   features w' = features w) \/
  (exists row,
     features w' = features w ++ [row] /\ Feature.passes row = false /\
     complete s' = true /\ created_feature_id s' = Some (Feature.id row)).

(** No chunk of [cs] is a feature-created chunk. *)
Definition no_feature_created (cs : list json) : Prop :=
  forall feature, feature_created_chunk feature ∉ cs.

(** The generator went from [r0] to [r] without creating a feature. *)
Definition quiet (r0 r : Run) : Prop :=
  returned r = false /\
  complete (session r) = complete (session r0) /\
  created_feature_id (session r) = created_feature_id (session r0) /\
  features (world r) = features (world r0) /\
  exists more, yielded r = yielded r0 ++ more /\ no_feature_created more.

(** The generator went from [r0] to [r] by creating a feature and
    returning: the feature-created chunk is the last one yielded, the row
    is the last of the store and has [passes = False], the session is
    completed with the row's identifier, and the trigger file is gone. *)
Definition created (r0 r : Run) : Prop :=
  returned r = true /\
  exists more content row,
    yielded r = yielded r0 ++ more ++ [feature_created_chunk content] /\
    no_feature_created more /\
    features (world r) = features (world r0) ++ [row] /\
    Feature.passes row = false /\
    complete (session r) = true /\
    created_feature_id (session r) = Some (Feature.id row) /\
    trigger_file (world r) = None.

(** A drained generator that created no feature: it yielded no
    feature-created chunk and left the completion fields and the rows as
    they were. *)
Definition turn_quiet (s : FeatureChatSession) (w : World) (d : Drained) : Prop :=
  no_feature_created (chunks d) /\
  complete (final_session d) = complete s /\
  created_feature_id (final_session d) = created_feature_id s /\
  features (final_world d) = features w.

(** A drained generator that created a feature: after the feature-created
    chunk it yielded exactly [rest]. *)
Definition turn_created (w : World) (d : Drained) (rest : list json) : Prop :=
  exists more content row,
    chunks d = more ++ feature_created_chunk content :: rest /\
    no_feature_created more /\
    features (final_world d) = features w ++ [row] /\
    Feature.passes row = false /\
    complete (final_session d) = true /\
    created_feature_id (final_session d) = Some (Feature.id row) /\
    trigger_file (final_world d) = None.

(** Neither completion field is reset from [s] to [s']. *)
Definition never_reset (s s' : FeatureChatSession) : Prop :=
  (complete s = true -> complete s' = true) /\
  (created_feature_id s <> None -> created_feature_id s' <> None).

(** The run [r] with its pending-write flag set to [b]. *)
Definition with_pending (b : bool) (r : Run) : Run :=
  mkRun (yielded r) (returned r) (mkLocals (current_text (locals r)) b)
    (session r) (world r).

(** The assistant message by which the agent invokes [Write] on [path];
    the tool has not run yet, and the trigger file is as it was. *)
Definition write_call (path : string) : Event :=
  mkEvent None (AssistantMessage [ToolUseBlock "Write" (Some path)]).

(** The tool result that follows a write of [definition] to the project's
    trigger file. *)
Definition written_result (definition : json) : Event :=
  mkEvent (Some (Some (Some definition))) UserMessage.

(** The condition under which [close] has something to release. *)
Definition holds_open_client (s : FeatureChatSession) : bool :=
  match client s with
  | Some _ => _client_entered s
  | None => false
  end.

(** Every name of the registry is bound to a session of the heap that was
    made for that name. *)
Definition registry_invariant (reg : Registry) : Prop :=
  forall name a,
    _sessions reg !! name = Some a ->
    exists s, heap reg !! a = Some s /\ project_name s = name.

(** A session with an entered client. *)
Definition open_session (project_name project_dir : string) : FeatureChatSession :=
  set_client_entered true
    (set_client (Some (mkClient true [])) (new_session project_name project_dir)).

(** A turn in which the agent writes a complete definition to the trigger
    file and goes on talking. *)
Definition creating_turn : Turn :=
  mkTurn None
    [write_call "/p/.new_feature.json";
     written_result definition_XY;
     mkEvent None (AssistantMessage [TextBlock "Anything else?"])]
    None.



(** A run that has just seen a write to the trigger file, which holds a
    complete definition, while the next store transaction raises. *)
Definition armed_on_faulty_store : Run :=
  mkRun [] false (mkLocals "" true) (open_session "p" "/p")
    (mkWorld (Some "skill") (Some (Some definition_XY)) None [] [true]).

(** A registry holding one open session, for project "p". *)
Definition registry_with_p : Registry :=
  mkRegistry {["p" := 0]} [open_session "p" "/p"].

(** A run on a project whose trigger file holds a complete definition. *)
Definition run_with_definition_on_disk : Run :=
  mkRun [] false (mkLocals "" false) (open_session "p" "/p")
    (set_trigger_file (Some (Some definition_XY)) empty_store).

(** The text a text chunk carries; [None] for any other chunk. *)
Definition text_of_chunk (c : json) : option string :=
  match c with
  | JObj [(k1, JStr ty); (k2, JStr t)] =>
      if String.eqb k1 "type" && String.eqb ty "text" && String.eqb k2 "content"
      then Some t else None
  | _ => None
  end.

(** The texts of the text chunks of [cs], in order. *)
Definition streamed_texts (cs : list json) : list string :=
  omap text_of_chunk cs.

(** The history entry of a streamed text. *)
Definition assistant_entry (t : string) : ChatMessage :=
  mkChatMessage "assistant" t None.

(** The history entry of a user's message. *)
Definition user_entry (user_message : string)
    (attachments : option (list ImageAttachment)) : ChatMessage :=
  mkChatMessage "user" user_message
    (Some match attachments with Some (_ :: _) => true | _ => false end).

(** The chunk that ends what [start] and [send_message] yield. *)
Definition terminal (c : json) : Prop :=
  c = response_done \/ exists e, c = error_chunk e.

(** The generator went from [r0] to [r]: it yielded [more], none of it the
    response-done marker, appended one history entry per text chunk, and
    left the client as it was. *)
Definition follows (r0 r : Run) : Prop :=
  exists more,
    yielded r = yielded r0 ++ more /\
    (response_done ∉ more) /\
    messages (session r) =
      messages (session r0) ++ (assistant_entry <$> streamed_texts more) /\
    client (session r) = client (session r0) /\
    _client_entered (session r) = _client_entered (session r0).

(** Whether a block arms the pending-write flag. *)
Definition arms (block : ContentBlock) : bool :=
  match block with
  | ToolUseBlock name file_path =>
      (String.eqb name "Write" || String.eqb name "Edit") &&
      str_contains ".new_feature.json" (default "" file_path)
  | _ => false
  end.

Definition event_arms (ev : Event) : bool :=
  match msg ev with
  | AssistantMessage content => existsb arms content
  | _ => false
  end.

(** Whether the agent's tools have written the trigger file at [ev]. *)
Definition writes_trigger (ev : Event) : bool :=
  match disk ev with
  | Some (Some _) => true
  | _ => false
  end.

(** The generator went from [r0] to [r] without a look at the store: no
    feature, no error, nothing returned, and the session's completion, the
    rows and the fault list as they were. *)
Definition untouched (r0 r : Run) : Prop :=
  returned r = returned r0 /\
  complete (session r) = complete (session r0) /\
  created_feature_id (session r) = created_feature_id (session r0) /\
  features (world r) = features (world r0) /\
  db_faults (world r) = db_faults (world r0) /\
  exists texts, yielded r = yielded r0 ++ (text_chunk <$> texts).

(** A drained generator that never looked at the store: it yielded text
    chunks and its terminal chunk, and left the session's completion, the
    rows and the fault list as they were. *)
Definition text_only_turn (s : FeatureChatSession) (w : World) (d : Drained) : Prop :=
  exists texts last,
    chunks d = (text_chunk <$> texts) ++ [last] /\ terminal last /\
    complete (final_session d) = complete s /\
    created_feature_id (final_session d) = created_feature_id s /\
    features (final_world d) = features w /\
    db_faults (final_world d) = db_faults w.

(** [isinstance(v, dict)]. *)
Definition is_dict (v : json) : bool :=
  match v with
  | JObj _ => true
  | _ => false
  end.

(** A definition that decodes to a list whose items are the two field
    names: it passes the check of the required fields. *)
Definition field_names_as_list : json :=
  JArr [JStr "name"; JStr "description"].


(** The session a "message" frame is for: the handler's own if it has
    one, else the one the registry holds for the project. *)
Definition bound_session (project_name : string) (h : Handler) : option nat :=
  match local_session h with
  | Some a => Some a
  | None => get_session project_name (registry h)
  end.

(** A turn in which the agent talks, invokes [Read], and gets its result. *)
Definition talking_turn : Turn :=
  mkTurn None
    [mkEvent None
       (AssistantMessage
          [TextBlock "Hello"; TextBlock ""; ToolUseBlock "Read" (Some "/p/app.py")]);
     mkEvent None UserMessage;
     mkEvent None (AssistantMessage [TextBlock "What should it do?"])]
    None.

(** A turn in which the agent invokes [Write] on the trigger file but the
    file is not there when the tool result arrives. *)
Definition failed_write_turn : Turn :=
  mkTurn None [write_call "/p/.new_feature.json"; mkEvent None UserMessage] None.

(** A run that has just seen a write to the trigger file, which holds the
    list of the two field names. *)
Definition armed_on_list : Run :=
  mkRun [] false (mkLocals "" true) (open_session "p" "/p")
    (set_trigger_file (Some (Some field_names_as_list)) empty_store).

(** A world whose trigger file holds a complete definition. *)
Definition world_with_definition : World :=
  set_trigger_file (Some (Some definition_XY)) empty_store.

(** A handler that has started the session of project "p". *)
Definition handler_of_p : Handler :=
  mkHandler registry_with_p empty_store (Some 0).

(** A handler that has not started a session, facing an empty registry. *)
Definition fresh_handler : Handler :=
  mkHandler (mkRegistry ∅ []) empty_store None.

Definition quiet_env : FrameEnv := mkFrameEnv false OpenOk talking_turn.

(** * Properties *)

(** ** Substring test *)

Lemma append_cons (c : ascii) (s t : string) :
  String c s +:+ t = String c (s +:+ t).
Proof. reflexivity. Qed.

Lemma is_prefix_spec (p s : string) :
  is_prefix p s = true <-> exists t, s = p +:+ t.
Proof.
  revert s. induction p as [|a p IH]; intros s; simpl.
  - split; [intros _; by exists s | done].
  - destruct s as [|b s]; simpl.
    + split; [done | intros [t Ht]; discriminate].
    + destruct (Ascii.eqb_spec a b) as [->|Hne].
      * rewrite IH. split; intros [t Ht]; exists t.
        -- by rewrite append_cons, Ht.
        -- rewrite append_cons in Ht. congruence.
      * split; [done | intros [t Ht]]. rewrite append_cons in Ht. congruence.
Qed.

(** [str_contains needle hay] decides that [needle] occurs in [hay]. *)
Lemma str_contains_spec (needle hay : string) :
  str_contains needle hay = true <->
  exists pre post, hay = pre +:+ needle +:+ post.
Proof.
  induction hay as [|c hay IH]; simpl.
  - rewrite orb_false_r, is_prefix_spec. split.
    + intros [t Ht]. by exists "", t.
    + intros [pre [post H]]. destruct pre; [by exists post | done].
  - rewrite orb_true_iff, is_prefix_spec, IH. split.
    + intros [[t Ht] | [pre [post H]]].
      * by exists "", t.
      * exists (String c pre), post. by rewrite append_cons, H.
    + intros [pre [post H]]. destruct pre as [|c' pre].
      * left. by exists post.
      * right. exists pre, post. rewrite append_cons in H. congruence.
Qed.

(** ** Feature creation *)

Section Properties.

Variable schema_accepts : FeatureCreate.t -> bool.

Lemma create_on_definition fields name description w :
  dict_get "name" fields = Some name ->
  dict_get "description" fields = Some description ->
  schema_accepts (schema_arguments fields name description) = true ->
  store_up w ->
  _create_feature_in_db schema_accepts (JObj fields) w =
    (Ok (inserted_row fields name description w),
     set_features (features w ++ [inserted_row fields name description w])
       (set_db_faults (tail (db_faults w)) w)).
Proof.
  intros Hn Hd Hs Hup. unfold _create_feature_in_db, py_get, py_getitem, bind.
  rewrite Hn, Hd.
  change (FeatureCreate.mk _ _ _ _ _) with (schema_arguments fields name description).
  rewrite Hs. unfold store_up in Hup.
  destruct (db_faults w) as [|[] faults] eqn:Hf; simpl in Hup; try done;
    unfold inserted_row, passed_priority; simpl; rewrite ?Hf; reflexivity.
Qed.

(** A creation that raises leaves the files and the rows as they were. *)
Lemma create_raises_frame data w e w' :
  _create_feature_in_db schema_accepts data w = (Raise e, w') ->
  trigger_file w' = trigger_file w /\ features w' = features w /\
  skill w' = skill w /\ settings_file w' = settings_file w.
Proof.
  unfold _create_feature_in_db.
  destruct (bind _ _) as [fc|e0].
  - destruct (db_faults w) as [|[] faults].
    + destruct (match FeatureCreate.priority fc with JNull | JStr _ => _ | p => as_int p end);
        intros H; inversion H; subst; done.
    + intros H; inversion H; subst; done.
    + destruct (match FeatureCreate.priority fc with JNull | JStr _ => _ | p => as_int p end);
        intros H; inversion H; subst; done.
  - intros H; inversion H; subst; done.
Qed.

(** A creation that returns appended exactly the row it returns, with
    [passes = False], and touched no file. *)
Lemma create_returns_frame data w row w' :
  _create_feature_in_db schema_accepts data w = (Ok row, w') ->
  features w' = features w ++ [row] /\ Feature.passes row = false /\
  trigger_file w' = trigger_file w /\
  skill w' = skill w /\ settings_file w' = settings_file w.
Proof.
  unfold _create_feature_in_db.
  destruct (bind _ _) as [fc|e0].
  - destruct (db_faults w) as [|[] faults].
    + destruct (match FeatureCreate.priority fc with JNull | JStr _ => _ | p => as_int p end);
        intros H; inversion H; subst; done.
    + intros H; inversion H.
    + destruct (match FeatureCreate.priority fc with JNull | JStr _ => _ | p => as_int p end);
        intros H; inversion H; subst; done.
  - intros H; inversion H.
Qed.

(** C1 — a definition with name and description and no priority key gets
    a row of priority 1, whatever priorities the store holds: the default
    of 1 is what reaches the schema, so the query for the greatest priority
    is never made.  Category and steps fall back to "General" and the empty
    list when their keys are absent too. *)
Theorem C1_absent_priority_inserts_default fields name description w :
  dict_get "priority" fields = None ->
  dict_get "name" fields = Some name ->
  dict_get "description" fields = Some description ->
  schema_accepts (schema_arguments fields name description) = true ->
  store_up w ->
  exists row w',
    _create_feature_in_db schema_accepts (JObj fields) w = (Ok row, w') /\
    features w' = features w ++ [row] /\
    Feature.priority row = 1%Z /\
    Feature.category row = default (JStr "General") (dict_get "category" fields) /\
    Feature.steps row = default (JArr []) (dict_get "steps" fields) /\
    Feature.passes row = false.
Proof.
  intros Hp Hn Hd Hs Hup.
  eexists _, _. split; [by apply create_on_definition|].
  simpl. unfold passed_priority. rewrite Hp. done.
Qed.

(** C4 (amended) — an integer priority other than 0 is the row's priority
    as it is, whatever the store holds; a float priority is not used and
    the row gets the default 1. *)
Theorem C4_integer_priority_used_as_is fields p name description w :
  dict_get "priority" fields = Some p ->
  numeric p = true ->
  p <> JInt 0 ->
  dict_get "name" fields = Some name ->
  dict_get "description" fields = Some description ->
  schema_accepts (schema_arguments fields name description) = true ->
  store_up w ->
  exists row w',
    _create_feature_in_db schema_accepts (JObj fields) w = (Ok row, w') /\
    features w' = features w ++ [row] /\
    Feature.priority row = match p with JInt n => n | _ => 1%Z end.
Proof.
  intros Hp Hnum Hnz Hn Hd Hs Hup.
  eexists _, _. split; [by apply create_on_definition|].
  split; [done|]. simpl. unfold passed_priority. rewrite Hp. simpl.
  destruct p as [| |n|f| | |]; try discriminate.
  - simpl. destruct (Z.eqb_spec n 0) as [->|]; [done|reflexivity].
  - by destruct f.
Qed.

(** ** The query pipeline *)

Lemma text_is_not_feature_created t feature :
  feature_created_chunk feature <> text_chunk t.
Proof. unfold feature_created_chunk, text_chunk. congruence. Qed.

Lemma error_is_not_feature_created e feature :
  feature_created_chunk feature <> error_chunk e.
Proof. unfold feature_created_chunk, error_chunk. congruence. Qed.

Lemma no_feature_created_nil : no_feature_created [].
Proof. intros f H. by apply elem_of_nil in H. Qed.

Lemma no_feature_created_app cs cs' :
  no_feature_created cs -> no_feature_created cs' ->
  no_feature_created (cs ++ cs').
Proof.
  intros H H' f Hin. apply elem_of_app in Hin as [Hin|Hin]; [by eapply H | by eapply H'].
Qed.

Lemma quiet_refl r : returned r = false -> quiet r r.
Proof.
  intros Hr. repeat split; try done.
  exists []. split; [by rewrite app_nil_r | apply no_feature_created_nil].
Qed.

Lemma quiet_trans r0 r1 r2 : quiet r0 r1 -> quiet r1 r2 -> quiet r0 r2.
Proof.
  intros (_ & Hc & Hi & Hf & m1 & Hy1 & Hn1) (Hr & Hc' & Hi' & Hf' & m2 & Hy2 & Hn2).
  repeat split; try congruence.
  exists (m1 ++ m2). split; [by rewrite Hy2, Hy1, app_assoc|].
  by apply no_feature_created_app.
Qed.

Lemma quiet_created r0 r1 r2 : quiet r0 r1 -> created r1 r2 -> created r0 r2.
Proof.
  intros (_ & Hc & Hi & Hf & m1 & Hy1 & Hn1)
         (Hr & m2 & content & row & Hy2 & Hn2 & Hf2 & Hp & Hc2 & Hi2 & Ht).
  split; [done|]. exists (m1 ++ m2), content, row.
  repeat split; try congruence.
  - by rewrite Hy2, Hy1, !app_assoc.
  - by apply no_feature_created_app.
Qed.

Lemma on_block_quiet block r : returned r = false -> quiet r (on_block block r).
Proof.
  intros Hr. destruct block as [t|name fp|]; unfold on_block.
  - destruct (truthy (JStr t)); [|by apply quiet_refl].
    repeat split; try done. exists [text_chunk t]. split; [done|].
    intros f Hin. apply list_elem_of_singleton in Hin.
    by apply text_is_not_feature_created in Hin.
  - destruct (_ || _); [|by apply quiet_refl].
    destruct (str_contains _ _); [|by apply quiet_refl].
    repeat split; try done. exists []. split; [by rewrite app_nil_r|].
    apply no_feature_created_nil.
  - by apply quiet_refl.
Qed.

Lemma on_blocks_quiet blocks r :
  returned r = false ->
  quiet r (foldl (fun r block => on_block block r) r blocks).
Proof.
  revert r. induction blocks as [|b blocks IH]; intros r Hr; simpl.
  - by apply quiet_refl.
  - pose proof (on_block_quiet b r Hr) as Hq.
    eapply quiet_trans; [exact Hq|]. apply IH. by destruct Hq.
Qed.

Lemma try_create_created ct s w chunk s' w' :
  try_create schema_accepts ct s w = (Ok (Some chunk), s', w') ->
  exists content row,
    ct = Some content /\ chunk = feature_created_chunk content /\
    py_in "name" content = Ok true /\ py_in "description" content = Ok true /\
    _create_feature_in_db schema_accepts content w = (Ok row, w') /\
    s' = mark_created (Feature.id row) s.
Proof.
  unfold try_create. destruct ct as [content|]; [|discriminate].
  unfold bind. destruct (py_in "name" content) as [[]|] eqn:Hn; try discriminate.
  destruct (py_in "description" content) as [[]|] eqn:Hd; try discriminate.
  destruct (_create_feature_in_db _ _ _) as [[row|e] w1] eqn:Hc; [|discriminate].
  intros H. inversion H; subst. by exists content, row.
Qed.

Lemma try_create_skipped ct s w s' w' :
  try_create schema_accepts ct s w = (Ok None, s', w') -> s' = s /\ w' = w.
Proof.
  unfold try_create. destruct ct as [content|]; [|discriminate].
  unfold bind. destruct (py_in "name" content) as [[]|]; try discriminate.
  - destruct (py_in "description" content) as [[]|]; try discriminate.
    + destruct (_create_feature_in_db _ _ _) as [[row|e] w1]; discriminate.
    + intros H. by inversion H.
  - intros H. by inversion H.
Qed.

Lemma try_create_raised ct s w e s' w' :
  try_create schema_accepts ct s w = (Raise e, s', w') ->
  s' = s /\ trigger_file w' = trigger_file w /\ features w' = features w.
Proof.
  unfold try_create. destruct ct as [content|]; [|intros H; by inversion H].
  unfold bind. destruct (py_in "name" content) as [[]|]; try discriminate.
  - destruct (py_in "description" content) as [[]|]; try discriminate.
    + destruct (_create_feature_in_db _ _ _) as [[row|e'] w1] eqn:Hc; [discriminate|].
      intros H. inversion H; subst.
      apply create_raises_frame in Hc. by destruct Hc as (? & ? & _).
    + intros H. by inversion H.
  - intros H. by inversion H.
Qed.

Lemma on_tool_result_outcome r :
  returned r = false ->
  quiet r (on_tool_result schema_accepts r) \/
  created r (on_tool_result schema_accepts r).
Proof.
  intros Hr. unfold on_tool_result.
  destruct (pending_feature_json_write (locals r)); [|left; by apply quiet_refl].
  destruct (trigger_file (world r)) as [ct|] eqn:Ht.
  - destruct (try_create _ _ _ _) as [[[[chunk|]|e] s'] w'] eqn:Htry.
    + right. apply try_create_created in Htry
        as (content & row & -> & -> & _ & _ & Hc & ->).
      apply create_returns_frame in Hc as (Hf & Hp & _).
      split; [done|]. exists [], content, row. simpl.
      repeat split; try done. apply no_feature_created_nil.
    + left. apply try_create_skipped in Htry as [-> ->].
      repeat split; try done. exists []. split; [by rewrite app_nil_r|].
      apply no_feature_created_nil.
    + left. apply try_create_raised in Htry as (-> & _ & Hf).
      repeat split; try done. eexists. split; [reflexivity|].
      intros f Hin. apply list_elem_of_singleton in Hin.
      by apply error_is_not_feature_created in Hin.
  - left. repeat split; try done. exists []. split; [by rewrite app_nil_r|].
    apply no_feature_created_nil.
Qed.

Lemma on_message_outcome m r :
  returned r = false ->
  quiet r (on_message schema_accepts m r) \/
  created r (on_message schema_accepts m r).
Proof.
  intros Hr. destruct m as [blocks| |]; simpl.
  - left. by apply on_blocks_quiet.
  - by apply on_tool_result_outcome.
  - left. by apply quiet_refl.
Qed.

Lemma receive_loop_outcome evs r :
  returned r = false ->
  quiet r (receive_loop schema_accepts evs r) \/
  created r (receive_loop schema_accepts evs r).
Proof.
  revert r. induction evs as [|ev evs IH]; intros r Hr; simpl.
  - left. by apply quiet_refl.
  - set (r0 := mkRun (yielded r) (returned r) (locals r) (session r)
                 (apply_disk (disk ev) (world r))).
    assert (Hq0 : quiet r r0).
    { repeat split; try done.
      - unfold r0, apply_disk. simpl. by destruct (disk ev).
      - exists []. split; [by rewrite app_nil_r | apply no_feature_created_nil]. }
    destruct (on_message_outcome (msg ev) r0 Hr) as [Hq|Hc].
    + pose proof Hq as (Hr1 & _). rewrite Hr1.
      destruct (IH _ Hr1) as [Hq'|Hc'].
      * left. eauto using quiet_trans.
      * right. eauto using quiet_trans, quiet_created.
    + pose proof Hc as (Hr1 & _). rewrite Hr1.
      right. eauto using quiet_created.
Qed.

(** Once the generator has returned, the rest of the stream is not read. *)
Lemma receive_loop_stops evs rest r :
  returned r = false ->
  returned (receive_loop schema_accepts evs r) = true ->
  receive_loop schema_accepts (evs ++ rest) r = receive_loop schema_accepts evs r.
Proof.
  revert r. induction evs as [|ev evs IH]; intros r Hr H; simpl in *.
  - congruence.
  - destruct (returned (on_message _ _ _)) eqn:Hm; [done|]. by apply IH.
Qed.

Lemma response_done_is_not_feature_created feature :
  feature_created_chunk feature <> response_done.
Proof. unfold feature_created_chunk, response_done. congruence. Qed.

Lemma no_feature_created_snoc_error cs e :
  no_feature_created cs -> no_feature_created (cs ++ [error_chunk e]).
Proof.
  intros H. apply no_feature_created_app; [done|].
  intros f Hin. apply list_elem_of_singleton in Hin.
  by apply error_is_not_feature_created in Hin.
Qed.

Lemma no_feature_created_snoc_done cs :
  no_feature_created cs -> no_feature_created (cs ++ [response_done]).
Proof.
  intros H. apply no_feature_created_app; [done|].
  intros f Hin. apply list_elem_of_singleton in Hin.
  by apply response_done_is_not_feature_created in Hin.
Qed.

Lemma query_claude_outcome message attachments turn s w :
  let d := _query_claude schema_accepts message attachments turn s w in
  turn_quiet s w d \/ (turn_created w d [] /\ raised d = None).
Proof.
  unfold _query_claude. destruct (client s) as [c|] eqn:Hcl; simpl.
  - destruct (query_error turn) as [e|]; simpl.
    + left. repeat split; try done. apply no_feature_created_nil.
    + match goal with |- context [receive_loop _ _ ?r0] => set (r0' := r0) end.
      destruct (receive_loop_outcome (events turn) r0' eq_refl) as [Hq|Hc].
      * left. destruct Hq as (_ & Hc & Hi & Hf & more & Hy & Hn).
        simpl in *. repeat split; try done. by rewrite Hy.
      * right. destruct Hc as (Hr & more & content & row & Hy & Hn & Hf & Hp & Hc & Hi & Ht).
        rewrite Hr. split; [|done]. exists more, content, row.
        simpl in *. by repeat split.
  - left. repeat split; try done. apply no_feature_created_nil.
Qed.

(** What follows a drained [_query_claude] in [start] and [send_message]:
    the response-done marker, or the error chunk of the exception. *)
Lemma wrap_outcome s w d :
  turn_quiet s w d \/ (turn_created w d [] /\ raised d = None) ->
  let d' :=
    match raised d with
    | None => mkDrained (chunks d ++ [response_done]) None
                (final_session d) (final_world d)
    | Some e => mkDrained (chunks d ++ [error_chunk e]) None
                  (final_session d) (final_world d)
    end in
  turn_quiet s w d' \/ turn_created w d' [response_done].
Proof.
  intros [(Hn & Hc & Hi & Hf) | [(more & content & row & Hy & H) Hr]]; simpl.
  - left. destruct (raised d); repeat split; try done; simpl.
    + by apply no_feature_created_snoc_error.
    + by apply no_feature_created_snoc_done.
  - right. rewrite Hr. exists more, content, row. simpl.
    split; [|done]. by rewrite Hy, <- app_assoc.
Qed.

Lemma send_message_outcome user_message attachments turn s w :
  let d := send_message schema_accepts user_message attachments turn s w in
  turn_quiet s w d \/ turn_created w d [response_done].
Proof.
  unfold send_message. destruct (client s) as [c|] eqn:Hcl.
  - match goal with |- context [_query_claude _ _ _ _ ?s1 _] => set (s1' := s1) end.
    change (turn_quiet s w) with (turn_quiet s1' w).
    apply wrap_outcome, query_claude_outcome.
  - left. repeat split; try done. simpl.
    apply (no_feature_created_snoc_error [] _ no_feature_created_nil).
Qed.

Lemma start_outcome open turn s w :
  let d := start schema_accepts open turn s w in
  turn_quiet s w d \/ turn_created w d [response_done].
Proof.
  unfold start. destruct (skill w) as [skill_content|].
  - destruct open as [|e|e].
    + match goal with |- context [_query_claude _ _ _ _ ?s1 ?w1] =>
        set (s1' := s1); set (w1' := w1) end.
      change (turn_quiet s w) with (turn_quiet s1' w1').
      change (turn_created w) with (turn_created w1').
      apply wrap_outcome, query_claude_outcome.
    + left. repeat split; try done. simpl.
      apply (no_feature_created_snoc_error [] _ no_feature_created_nil).
    + left. repeat split; try done. simpl.
      apply (no_feature_created_snoc_error [] _ no_feature_created_nil).
  - left. repeat split; try done. simpl.
    apply (no_feature_created_snoc_error [] _ no_feature_created_nil).
Qed.




(** The same at the level of the pipeline: the feature-created chunk is
    the last chunk [_query_claude] yields, and no exception follows it. *)
Lemma feature_created_is_last_of_query message attachments turn s w feature :
  let d := _query_claude schema_accepts message attachments turn s w in
  feature_created_chunk feature ∈ chunks d ->
  exists more,
    chunks d = more ++ [feature_created_chunk feature] /\
    no_feature_created more /\ raised d = None /\
    trigger_file (final_world d) = None.
Proof.
  intros d Hin.
  destruct (query_claude_outcome message attachments turn s w)
    as [(Hn & _) | [(more & content & row & Hy & Hn & H) Hr]].
  - by apply Hn in Hin.
  - fold d in Hy, H, Hr. exists more.
    rewrite Hy in Hin. apply elem_of_app in Hin as [Hin|Hin].
    + by apply Hn in Hin.
    + apply list_elem_of_singleton in Hin. inversion Hin; subst.
      repeat split; try done. by destruct H as (_ & _ & _ & _ & ?).
Qed.

(** And the events that follow the creation are never read: the pipeline
    ends the same whatever the stream would have gone on with. *)
Lemma events_after_creation_are_not_read message attachments s w feature
    query_error evs stream_error rest stream_error' :
  feature_created_chunk feature ∈
    chunks (_query_claude schema_accepts message attachments
              (mkTurn query_error evs stream_error) s w) ->
  _query_claude schema_accepts message attachments
      (mkTurn query_error (evs ++ rest) stream_error') s w =
    _query_claude schema_accepts message attachments
      (mkTurn query_error evs stream_error) s w.
Proof.
  unfold _query_claude. simpl. destruct (client s) as [c|].
  - destruct query_error as [e|]; simpl.
    + intros H. by apply elem_of_nil in H.
    + match goal with |- context [receive_loop _ evs ?r0] => set (r0' := r0) end.
      intros Hin.
      assert (Hret : returned (receive_loop schema_accepts evs r0') = true).
      { destruct (receive_loop_outcome evs r0' eq_refl)
          as [(_ & _ & _ & _ & more & Hy & Hn) | (Hr & _)]; [|done].
        rewrite Hy in Hin. simpl in Hin. by apply Hn in Hin. }
      by rewrite (receive_loop_stops evs rest r0' eq_refl Hret), Hret.
  - intros H. by apply elem_of_nil in H.
Qed.


(** C8 — a [Write] or [Edit] invocation arms the pending-write flag
    exactly when ".new_feature.json" occurs in its [file_path], and does
    nothing else: the armed run keeps no trace of the path, so the check at
    the next tool result reads the project's trigger file whatever path was
    written. *)
Theorem C8_trigger_substring_arms name file_path r :
  name = "Write" \/ name = "Edit" ->
  on_block (ToolUseBlock name file_path) r =
    with_pending
      (pending_feature_json_write (locals r) ||
       str_contains ".new_feature.json" (default "" file_path)) r /\
  (str_contains ".new_feature.json" (default "" file_path) = true <->
   exists pre post, default "" file_path = pre +:+ ".new_feature.json" +:+ post) /\
  (str_contains ".new_feature.json" (default "" file_path) = true ->
   on_tool_result schema_accepts (on_block (ToolUseBlock name file_path) r) =
     on_tool_result schema_accepts (with_pending true r)).
Proof.
  intros Hname.
  assert (Hw : (String.eqb name "Write" || String.eqb name "Edit") = true).
  { destruct Hname as [-> | ->]; reflexivity. }
  split; [|split].
  - unfold on_block. rewrite Hw.
    destruct (str_contains _ _).
    + by rewrite orb_true_r.
    + rewrite orb_false_r. by destruct r as [y b [ct p] s' w'].
  - apply str_contains_spec.
  - intros H. unfold on_block. by rewrite Hw, H.
Qed.

Lemma completion_step_sound s w s' w' :
  completion_invariant s -> completion_step s w s' w' ->
  completion_invariant s' /\ never_reset s s'.
Proof.
  unfold completion_invariant, never_reset.
  intros Hinv [(Hc & Hi & _) | (row & _ & _ & Hc & Hi)].
  - rewrite Hc, Hi. tauto.
  - rewrite Hc, Hi. repeat split; done.
Qed.

Lemma outcome_is_completion_step s w d rest :
  turn_quiet s w d \/ turn_created w d rest ->
  completion_step s w (final_session d) (final_world d).
Proof.
  intros [(_ & Hc & Hi & Hf) | (more & content & row & _ & _ & Hf & Hp & Hc & Hi & _)].
  - by left.
  - right. by exists row.
Qed.

(** C9 — a session is complete exactly when it holds a created feature's
    identifier: so it is made, and so [start], [send_message] and [close]
    leave it.  The two fields change only together, when a row has been
    inserted, and are never reset. *)
Theorem C9_completion_invariant s w :
  completion_invariant s ->
  (forall project_name project_dir,
     completion_invariant (new_session project_name project_dir)) /\
  (forall open turn,
     let d := start schema_accepts open turn s w in
     completion_invariant (final_session d) /\ never_reset s (final_session d) /\
     completion_step s w (final_session d) (final_world d)) /\
  (forall user_message attachments turn,
     let d := send_message schema_accepts user_message attachments turn s w in
     completion_invariant (final_session d) /\ never_reset s (final_session d) /\
     completion_step s w (final_session d) (final_world d)) /\
  (forall aexit_raises,
     completion_invariant (close aexit_raises s) /\
     complete (close aexit_raises s) = complete s /\
     created_feature_id (close aexit_raises s) = created_feature_id s).
Proof.
  intros Hinv. split; [|split; [|split]].
  - intros n d. unfold completion_invariant. simpl. split; [discriminate|done].
  - intros open turn d.
    pose proof (outcome_is_completion_step s w d _ (start_outcome open turn s w)) as Hstep.
    destruct (completion_step_sound s w _ _ Hinv Hstep) as [Hi Hn].
    split; [exact Hi | split; [exact Hn | exact Hstep]].
  - intros um att turn d.
    pose proof (outcome_is_completion_step s w d _
                  (send_message_outcome um att turn s w)) as Hstep.
    destruct (completion_step_sound s w _ _ Hinv Hstep) as [Hi Hn].
    split; [exact Hi | split; [exact Hn | exact Hstep]].
  - intros b. unfold close, completion_invariant in *.
    destruct (client s); [destruct (_client_entered s)|]; simpl; tauto.
Qed.

(** C10 — when creating the feature raises (the store transaction, or the
    schema before it), the tool result yields the one error chunk and
    returns nothing: the session is as it was, the trigger file and the
    rows too, the pending-write flag is cleared, and the stream goes on
    with the next event. *)
Theorem C10_creation_failure_is_survived content e w' r rest :
  pending_feature_json_write (locals r) = true ->
  returned r = false ->
  trigger_file (world r) = Some (Some content) ->
  py_in "name" content = Ok true ->
  py_in "description" content = Ok true ->
  _create_feature_in_db schema_accepts content (world r) = (Raise e, w') ->
  let r' := mkRun (yielded r ++ [error_chunk "Failed to create feature from definition."])
              false (mkLocals (current_text (locals r)) false) (session r) w' in
  on_tool_result schema_accepts r = r' /\
  trigger_file w' = trigger_file (world r) /\
  features w' = features (world r) /\
  receive_loop schema_accepts (mkEvent None UserMessage :: rest) r =
    receive_loop schema_accepts rest r'.
Proof.
  intros Hp Hr Ht Hn Hd Hc r'.
  assert (Hstep : on_tool_result schema_accepts r = r').
  { unfold on_tool_result. rewrite Hp, Ht. unfold try_create, bind.
    rewrite Hn, Hd, Hc. unfold r'. by rewrite Hr. }
  apply create_raises_frame in Hc as (Hf & Hrows & _).
  repeat split; try done.
  simpl. destruct r as [y b l s0 w0]. simpl in *. by rewrite Hstep.
Qed.

End Properties.

(** ** The registry *)

Lemma close_project_name b s : project_name (close b s) = project_name s.
Proof. unfold close. destruct (client s); [destruct (_client_entered s)|]; done. Qed.

Lemma close_releases b s : holds_open_client (close b s) = false.
Proof.
  unfold close, holds_open_client.
  destruct (client s) eqn:Hc; [destruct (_client_entered s) eqn:He|]; simpl;
    rewrite ?Hc, ?He; done.
Qed.

Lemma update_at_sessions a f reg : _sessions (update_at a f reg) = _sessions reg.
Proof. unfold update_at. by destruct (heap reg !! a). Qed.

Lemma update_at_invariant a f reg :
  (forall s, project_name (f s) = project_name s) ->
  registry_invariant reg -> registry_invariant (update_at a f reg).
Proof.
  intros Hf Hinv name b Hb. unfold update_at in *.
  destruct (heap reg !! a) as [sa|] eqn:Ha; [|by apply Hinv].
  simpl in *. destruct (Hinv name b Hb) as (s & Hs & Hn).
  destruct (decide (a = b)) as [->|Hne].
  - exists (f sa). rewrite list_lookup_insert_eq by (by eapply lookup_lt_Some).
    split; [done|]. rewrite Hf. congruence.
  - exists s. by rewrite list_lookup_insert_ne.
Qed.

Lemma create_session_locked_invariant name dir reg :
  registry_invariant reg ->
  registry_invariant (create_session_locked name dir reg).2.
Proof.
  intros Hinv n a. unfold create_session_locked. simpl.
  destruct (decide (name = n)) as [->|Hne].
  - rewrite lookup_insert_eq. intros [= <-].
    exists (new_session n dir). split; [|done].
    by rewrite lookup_app_r, Nat.sub_diag.
  - rewrite lookup_insert_ne, lookup_delete_ne by done. intros Ha.
    destruct (Hinv n a Ha) as (s & Hs & Hn). exists s. split; [|done].
    by apply lookup_app_l_Some.
Qed.

Lemma create_session_invariant b name dir reg :
  registry_invariant reg ->
  registry_invariant (create_session b name dir reg).2.
Proof.
  intros Hinv. pose proof (create_session_locked_invariant name dir reg Hinv) as H1.
  unfold create_session.
  destruct (create_session_locked name dir reg) as [[old new] reg1]. simpl in *.
  destruct old as [old|]; simpl; [|done].
  apply update_at_invariant; [apply close_project_name | done].
Qed.

Lemma remove_session_invariant b name reg :
  registry_invariant reg -> registry_invariant (remove_session b name reg).
Proof.
  intros Hinv. unfold remove_session.
  assert (H1 : registry_invariant
                 (mkRegistry (delete name (_sessions reg)) (heap reg))).
  { intros n a. simpl. intros Ha. apply lookup_delete_Some in Ha as [_ Ha].
    by apply Hinv. }
  destruct (_sessions reg !! name); [|done].
  apply update_at_invariant; [apply close_project_name | done].
Qed.

Lemma cleanup_all_sessions_empties b reg :
  _sessions (cleanup_all_sessions b reg) = ∅.
Proof.
  unfold cleanup_all_sessions.
  generalize (map_to_list (_sessions reg)).*2. intros l.
  assert (H : forall r, _sessions (foldl (fun reg a => update_at a (close b) reg) r l)
                        = _sessions r).
  { induction l as [|a l IH]; intros r; simpl; [done|].
    by rewrite IH, update_at_sessions. }
  by rewrite H.
Qed.

Lemma cleanup_all_sessions_invariant b reg :
  registry_invariant (cleanup_all_sessions b reg).
Proof. intros n a. by rewrite cleanup_all_sessions_empties, lookup_empty. Qed.

(** Under the invariant no two names of the registry are bound to
    sessions of one project. *)
Lemma one_session_per_project reg n1 n2 a1 a2 s1 s2 :
  registry_invariant reg ->
  _sessions reg !! n1 = Some a1 -> heap reg !! a1 = Some s1 ->
  _sessions reg !! n2 = Some a2 -> heap reg !! a2 = Some s2 ->
  project_name s1 = project_name s2 ->
  n1 = n2 /\ a1 = a2.
Proof.
  intros Hinv H1 Hs1 H2 Hs2 Heq.
  destruct (Hinv n1 a1 H1) as (s1' & Hs1' & <-).
  destruct (Hinv n2 a2 H2) as (s2' & Hs2' & <-).
  assert (project_name s1' = project_name s2') as Hn by congruence.
  split; [done|]. rewrite Hn in H1. congruence.
Qed.

(** C3 (amended) — a name of the registry is bound to one session, and
    under the invariant no session is bound to two names.  When [create]
    finds a session under the name, the block under the lock evicts it and
    installs the new one: once the lock is released the map shows the new
    session, shows the old one under no name, and the old session is as it
    was, not closed.  It is closed after that, the map staying as it is. *)
Theorem C3_evicted_then_installed_then_closed b name dir reg old s_old :
  registry_invariant reg ->
  _sessions reg !! name = Some old ->
  heap reg !! old = Some s_old ->
  let locked := create_session_locked name dir reg in
  let new := locked.1.2 in
  let reg1 := locked.2 in
  let reg2 := (create_session b name dir reg).2 in
  locked.1.1 = Some old /\ new <> old /\
  (create_session b name dir reg).1 = new /\
  _sessions reg1 !! name = Some new /\
  (forall n, _sessions reg1 !! n <> Some old) /\
  heap reg1 !! old = Some s_old /\
  heap reg1 !! new = Some (new_session name dir) /\
  registry_invariant reg1 /\
  _sessions reg2 = _sessions reg1 /\
  heap reg2 !! old = Some (close b s_old) /\
  holds_open_client (close b s_old) = false /\
  heap reg2 !! new = Some (new_session name dir) /\
  registry_invariant reg2.
Proof.
  intros Hinv Hold Hs locked new reg1 reg2.
  pose proof (lookup_lt_Some _ _ _ Hs) as Hlt.
  assert (Hne : new <> old) by (unfold new, locked; simpl; lia).
  assert (H1old : heap reg1 !! old = Some s_old)
    by (unfold reg1, locked; simpl; by apply lookup_app_l_Some).
  assert (H1new : heap reg1 !! new = Some (new_session name dir)).
  { unfold reg1, new, locked. simpl. by rewrite lookup_app_r, Nat.sub_diag. }
  assert (Hreg2 : reg2 = update_at old (close b) reg1).
  { unfold reg2, create_session, reg1, locked, create_session_locked.
    by rewrite Hold. }
  assert (Hheap2 : heap reg2 = <[old := close b s_old]> (heap reg1)).
  { rewrite Hreg2. unfold update_at. by rewrite H1old. }
  split; [exact Hold|]. split; [exact Hne|].
  split; [unfold create_session, create_session_locked; by rewrite Hold|].
  split; [unfold reg1, locked; simpl; by rewrite lookup_insert_eq|].
  split.
  { intros n Hn. unfold reg1, locked in Hn. simpl in Hn.
    destruct (decide (name = n)) as [->|Hnn].
    - rewrite lookup_insert_eq in Hn. by inversion Hn.
    - rewrite lookup_insert_ne, lookup_delete_ne in Hn by done.
      destruct (Hinv n old Hn) as (s1 & Hs1 & Hn1).
      destruct (Hinv name old Hold) as (s2 & Hs2 & Hn2). congruence. }
  split; [exact H1old|]. split; [exact H1new|].
  split; [by apply create_session_locked_invariant|].
  split; [rewrite Hreg2; apply update_at_sessions|].
  split.
  { rewrite Hheap2. apply list_lookup_insert_eq.
    by eapply lookup_lt_Some. }
  split; [apply close_releases|].
  split; [rewrite Hheap2; by rewrite list_lookup_insert_ne|].
  by apply create_session_invariant.
Qed.

(** ** The websocket handler *)

Section HandlerProperties.

Variable schema_accepts : FeatureCreate.t -> bool.

Lemma on_block_project_name block r :
  project_name (session (on_block block r)) = project_name (session r).
Proof.
  destruct block as [t|name fp|]; unfold on_block.
  - by destruct (truthy (JStr t)).
  - destruct (_ || _); [|done]. by destruct (str_contains _ _).
  - done.
Qed.

Lemma on_tool_result_project_name r :
  project_name (session (on_tool_result schema_accepts r)) = project_name (session r).
Proof.
  unfold on_tool_result.
  destruct (pending_feature_json_write (locals r)); [|done].
  destruct (trigger_file (world r)) as [ct|]; [|done].
  destruct (try_create _ _ _ _) as [[[[chunk|]|e] s'] w'] eqn:Htry; simpl.
  - by apply try_create_created in Htry as (? & ? & _ & _ & _ & _ & _ & ->).
  - by apply try_create_skipped in Htry as [-> _].
  - by apply try_create_raised in Htry as (-> & _).
Qed.

Lemma on_message_project_name m r :
  project_name (session (on_message schema_accepts m r)) = project_name (session r).
Proof.
  destruct m as [blocks| |]; simpl; [|apply on_tool_result_project_name|done].
  revert r. induction blocks as [|b blocks IH]; intros r; simpl; [done|].
  by rewrite IH, on_block_project_name.
Qed.

Lemma receive_loop_project_name evs r :
  project_name (session (receive_loop schema_accepts evs r)) = project_name (session r).
Proof.
  revert r. induction evs as [|ev evs IH]; intros r; simpl; [done|].
  destruct (returned (on_message _ _ _)); [|rewrite IH];
    by rewrite on_message_project_name.
Qed.

Lemma query_claude_project_name message attachments turn s w :
  project_name (final_session (_query_claude schema_accepts message attachments turn s w))
    = project_name s.
Proof.
  unfold _query_claude. destruct (client s); [|done].
  destruct (query_error turn); [done|]. simpl.
  by rewrite receive_loop_project_name.
Qed.

Lemma send_message_project_name user_message attachments turn s w :
  project_name (final_session (send_message schema_accepts user_message attachments turn s w))
    = project_name s.
Proof.
  unfold send_message. destruct (client s); [|done].
  destruct (raised _); simpl; by rewrite query_claude_project_name.
Qed.

Lemma start_project_name open turn s w :
  project_name (final_session (start schema_accepts open turn s w)) = project_name s.
Proof.
  unfold start. destruct (skill w); [|done]. destruct open; [|done|done].
  destruct (raised _); simpl; by rewrite query_claude_project_name.
Qed.

Lemma relay_invariant a gen h :
  (forall s w, project_name (final_session (gen s w)) = project_name s) ->
  registry_invariant (registry h) ->
  registry_invariant (registry (relay a gen h).2).
Proof.
  intros Hgen Hinv. unfold relay.
  destruct (heap (registry h) !! a) as [s|] eqn:Ha; [|done]. simpl.
  intros name b Hb. simpl in *. destruct (Hinv name b Hb) as (sb & Hsb & Hn).
  destruct (decide (a = b)) as [->|Hne].
  - eexists. rewrite list_lookup_insert_eq by (by eapply lookup_lt_Some).
    split; [done|]. rewrite Hgen. congruence.
  - exists sb. by rewrite list_lookup_insert_ne.
Qed.

(** Whatever frame arrives, the registry keeps its invariant. *)
Lemma on_frame_invariant project_name project_path data env h :
  registry_invariant (registry h) ->
  registry_invariant
    (registry (on_frame schema_accepts project_name project_path data env h).2).
Proof.
  intros Hinv. unfold on_frame. destruct data as [message|]; [|done].
  destruct (py_get message "type" JNull) as [msg_type|e]; [|done].
  destruct (str_eq_value "ping" msg_type); [done|].
  destruct (str_eq_value "start" msg_type).
  { pose proof (create_session_invariant (aexit_raises env) project_name
                  project_path (registry h) Hinv) as H1.
    destruct (create_session _ _ _ _) as [a reg]. simpl in H1.
    pose proof (relay_invariant a (start schema_accepts (open_outcome env) (turn env))
                  (mkHandler reg (project_world h) (Some a))
                  (start_project_name _ _) H1) as H2.
    by destruct (relay _ _ _) as [out h']. }
  destruct (str_eq_value "message" msg_type); [|done].
  destruct (match local_session h with Some a => Some a | None => _ end) as [a|]; [|done].
  destruct (bind _ _) as [user_content|e]; [|done].
  destruct (truthy (JStr user_content)); [|done].
  pose proof (relay_invariant a (send_message schema_accepts user_content None (turn env))
                (mkHandler (registry h) (project_world h) (Some a))
                (send_message_project_name _ _ _) Hinv) as H2.
  by destruct (relay _ _ _) as [out h'].
Qed.

Lemma receive_frames_invariant project_name project_path frames h :
  registry_invariant (registry h) ->
  registry_invariant
    (registry (receive_frames schema_accepts project_name project_path frames h).2).
Proof.
  revert h. induction frames as [|[data env] frames IH]; intros h Hinv; simpl; [done|].
  pose proof (on_frame_invariant project_name project_path data env h Hinv) as H1.
  destruct (on_frame _ _ _ _ _ _) as [[out [|e]] h1]; simpl in *; [|done].
  specialize (IH h1 H1).
  by destruct (receive_frames _ _ _ _ _) as [[out' e'] h2].
Qed.

(** A ping is answered with a pong and touches neither the registry nor
    any session. *)
Lemma ping_is_answered project_name project_path env h :
  on_frame schema_accepts project_name project_path
      (Some (JObj [("type", JStr "ping")])) env h =
    ([JObj [("type", JStr "pong")]], Continue, h).
Proof. reflexivity. Qed.


End HandlerProperties.

(** ** Concrete runs *)

Lemma C1_absent_priority_inserts_default_witness :
  exists row w',
    _create_feature_in_db typed_schema definition_XY store_with_priority_3
      = (Ok row, w') /\
    features w' = features store_with_priority_3 ++ [row] /\
    Feature.priority row = 1%Z /\
    Feature.category row = JStr "General" /\
    Feature.steps row = JArr [] /\
    Feature.passes row = false.
Proof.
  apply (C1_absent_priority_inserts_default typed_schema
           [("name", JStr "X"); ("description", JStr "Y")]
           (JStr "X") (JStr "Y") store_with_priority_3);
    [reflexivity | reflexivity | reflexivity | reflexivity | unfold store_up; simpl; congruence].
Defined.

(** With a feature of priority 3 in the store, the greatest priority plus
    one is 4, and the row created without a priority key has priority 1. *)
Example absent_priority_on_store_with_priority_3 :
  (Feature.priority <$> first_by_priority_desc (features store_with_priority_3))
    = Some 3%Z /\
  (Feature.priority <$> last (features
      (snd (_create_feature_in_db typed_schema definition_XY store_with_priority_3))))
    = Some 1%Z.
Proof. split; reflexivity. Qed.

(** C4 (as stated) fails: priority 0 and priority 2.5 both give a row of
    priority 1. *)
Lemma C4_numeric_priority_not_used :
  (exists row w',
     _create_feature_in_db typed_schema
       (JObj [("name", JStr "X"); ("description", JStr "Y"); ("priority", JInt 0)])
       empty_store = (Ok row, w') /\
     Feature.priority row <> 0%Z) /\
  (exists row w',
     _create_feature_in_db typed_schema
       (JObj [("name", JStr "X"); ("description", JStr "Y");
              ("priority", JFloat float_2_5)])
       empty_store = (Ok row, w') /\
     Feature.priority row = 1%Z).
Proof. split; eexists _, _; (split; [vm_compute; reflexivity | done]). Qed.

Lemma C4_integer_priority_used_as_is_witness :
  exists row w',
    _create_feature_in_db typed_schema
      (JObj [("name", JStr "X"); ("description", JStr "Y"); ("priority", JInt 5)])
      store_with_priority_3 = (Ok row, w') /\
    features w' = features store_with_priority_3 ++ [row] /\
    Feature.priority row = 5%Z.
Proof.
  apply (C4_integer_priority_used_as_is typed_schema
           [("name", JStr "X"); ("description", JStr "Y"); ("priority", JInt 5)]
           (JInt 5) (JStr "X") (JStr "Y") store_with_priority_3);
    [reflexivity | reflexivity | congruence | reflexivity | reflexivity
    | reflexivity | unfold store_up; simpl; congruence].
Defined.



Lemma registry_with_p_invariant : registry_invariant registry_with_p.
Proof.
  intros name a H. unfold registry_with_p in H. simpl in H.
  apply lookup_singleton_Some in H as [<- <-].
  eexists. split; reflexivity.
Defined.

(** C3 (as stated) fails: when the lock is released the map shows the new
    session while the old one still holds its open client. *)
Lemma C3_new_session_visible_before_close :
  let reg1 := (create_session_locked "p" "/p" registry_with_p).2 in
  get_session "p" registry_with_p = Some 0 /\
  get_session "p" reg1 = Some 1 /\
  holds_open_client <$> heap reg1 !! 0 = Some true.
Proof. repeat split; vm_compute; reflexivity. Qed.

Lemma C3_evicted_then_installed_then_closed_witness :
  let locked := create_session_locked "p" "/p" registry_with_p in
  let new := locked.1.2 in
  let reg1 := locked.2 in
  let reg2 := (create_session false "p" "/p" registry_with_p).2 in
  locked.1.1 = Some 0 /\ new <> 0 /\
  (create_session false "p" "/p" registry_with_p).1 = new /\
  _sessions reg1 !! "p" = Some new /\
  (forall n, _sessions reg1 !! n <> Some 0) /\
  heap reg1 !! 0 = Some (open_session "p" "/p") /\
  heap reg1 !! new = Some (new_session "p" "/p") /\
  registry_invariant reg1 /\
  _sessions reg2 = _sessions reg1 /\
  heap reg2 !! 0 = Some (close false (open_session "p" "/p")) /\
  holds_open_client (close false (open_session "p" "/p")) = false /\
  heap reg2 !! new = Some (new_session "p" "/p") /\
  registry_invariant reg2.
Proof.
  apply (C3_evicted_then_installed_then_closed false "p" "/p" registry_with_p
           0 (open_session "p" "/p"));
    [exact registry_with_p_invariant | reflexivity | reflexivity].
Defined.




Lemma C10_creation_failure_is_survived_witness :
  let r' := mkRun [error_chunk "Failed to create feature from definition."]
              false (mkLocals "" false) (open_session "p" "/p")
              (mkWorld (Some "skill") (Some (Some definition_XY)) None [] []) in
  on_tool_result typed_schema armed_on_faulty_store = r' /\
  trigger_file (world r') = trigger_file (world armed_on_faulty_store) /\
  features (world r') = features (world armed_on_faulty_store) /\
  receive_loop typed_schema
      [mkEvent None UserMessage; write_call "/p/.new_feature.json"]
      armed_on_faulty_store =
    receive_loop typed_schema [write_call "/p/.new_feature.json"] r'.
Proof.
  apply (C10_creation_failure_is_survived typed_schema definition_XY
           "database error"
           (mkWorld (Some "skill") (Some (Some definition_XY)) None [] [])
           armed_on_faulty_store [write_call "/p/.new_feature.json"]);
    reflexivity.
Defined.

Lemma C8_trigger_substring_arms_witness :
  let block := ToolUseBlock "Edit" (Some "/tmp/backup/.new_feature.json.bak") in
  on_block block run_with_definition_on_disk =
    with_pending
      (pending_feature_json_write (locals run_with_definition_on_disk) ||
       str_contains ".new_feature.json" "/tmp/backup/.new_feature.json.bak")
      run_with_definition_on_disk /\
  (str_contains ".new_feature.json" "/tmp/backup/.new_feature.json.bak" = true <->
   exists pre post,
     "/tmp/backup/.new_feature.json.bak" = pre +:+ ".new_feature.json" +:+ post) /\
  (str_contains ".new_feature.json" "/tmp/backup/.new_feature.json.bak" = true ->
   on_tool_result typed_schema (on_block block run_with_definition_on_disk) =
     on_tool_result typed_schema (with_pending true run_with_definition_on_disk)).
Proof.
  apply (C8_trigger_substring_arms typed_schema "Edit"
           (Some "/tmp/backup/.new_feature.json.bak") run_with_definition_on_disk).
  right. reflexivity.
Defined.

(** An [Edit] of another file whose path contains the trigger file's name
    arms the flag, and the tool result then creates the feature from the
    definition found in the project's trigger file. *)
Example edit_of_another_file_creates_from_trigger_file :
  let r := receive_loop typed_schema
             [mkEvent None
                (AssistantMessage
                   [ToolUseBlock "Edit" (Some "/tmp/backup/.new_feature.json.bak")]);
              mkEvent None UserMessage]
             run_with_definition_on_disk in
  yielded r = [feature_created_chunk definition_XY] /\
  (Feature.name <$> features (world r)) = [JStr "X"] /\
  trigger_file (world r) = None.
Proof. repeat split. Qed.

Lemma new_session_completion_invariant project_name project_dir :
  completion_invariant (new_session project_name project_dir).
Proof. unfold completion_invariant. simpl. split; [discriminate | done]. Defined.

Lemma C9_completion_invariant_witness :
  (forall project_name project_dir,
     completion_invariant (new_session project_name project_dir)) /\
  (forall open turn,
     let d := start typed_schema open turn (new_session "p" "/p") empty_store in
     completion_invariant (final_session d) /\
     never_reset (new_session "p" "/p") (final_session d) /\
     completion_step (new_session "p" "/p") empty_store
       (final_session d) (final_world d)) /\
  (forall user_message attachments turn,
     let d := send_message typed_schema user_message attachments turn
                (new_session "p" "/p") empty_store in
     completion_invariant (final_session d) /\
     never_reset (new_session "p" "/p") (final_session d) /\
     completion_step (new_session "p" "/p") empty_store
       (final_session d) (final_world d)) /\
  (forall aexit_raises,
     completion_invariant (close aexit_raises (new_session "p" "/p")) /\
     complete (close aexit_raises (new_session "p" "/p"))
       = complete (new_session "p" "/p") /\
     created_feature_id (close aexit_raises (new_session "p" "/p"))
       = created_feature_id (new_session "p" "/p")).
Proof.
  apply (C9_completion_invariant typed_schema (new_session "p" "/p") empty_store).
  exact (new_session_completion_invariant "p" "/p").
Defined.

(** A [start] whose bootstrap turn creates a feature completes the
    session with the row's identifier. *)
Example start_creates_and_completes :
  let d := start typed_schema OpenOk creating_turn
             (new_session "p" "/p") store_with_priority_3 in
  chunks d = [feature_created_chunk definition_XY; response_done] /\
  complete (final_session d) = true /\
  created_feature_id (final_session d) = Some 2%Z /\
  (Feature.id <$> features (final_world d)) = [1%Z; 2%Z].
Proof. repeat split. Qed.

(** A malformed frame between two pings: one error frame, and the second
    ping is answered. *)
Example malformed_frame_between_pings :
  let env := mkFrameEnv false OpenOk creating_turn in
  let ping := Some (JObj [("type", JStr "ping")]) in
  (receive_frames typed_schema "p" "/p" [(ping, env); (None, env); (ping, env)]
     (mkHandler registry_with_p empty_store None)).1 =
    ([JObj [("type", JStr "pong")]; error_chunk "Invalid JSON";
      JObj [("type", JStr "pong")]], Disconnected).
Proof. reflexivity. Qed.

(** * Further properties *)

(** ** The session's history and terminal chunk *)

Section SessionProperties.

Variable schema_accepts : FeatureCreate.t -> bool.

Lemma no_text_in_feature_created feature :
  streamed_texts [feature_created_chunk feature] = [].
Proof. by destruct feature. Qed.

Lemma follows_refl r : follows r r.
Proof.
  exists []. rewrite !app_nil_r. repeat split; try done.
  intros H. by apply elem_of_nil in H.
Qed.

Lemma follows_trans r0 r1 r2 : follows r0 r1 -> follows r1 r2 -> follows r0 r2.
Proof.
  intros (m1 & Hy1 & Hd1 & Hm1 & Hc1 & He1) (m2 & Hy2 & Hd2 & Hm2 & Hc2 & He2).
  exists (m1 ++ m2). repeat split; try congruence.
  - by rewrite Hy2, Hy1, app_assoc.
  - intros H. apply elem_of_app in H as [H|H]; tauto.
  - unfold streamed_texts in *.
    by rewrite Hm2, Hm1, omap_app, fmap_app, app_assoc.
Qed.

Lemma follows_one r0 r c :
  yielded r = yielded r0 ++ [c] -> c <> response_done ->
  messages (session r) =
    messages (session r0) ++ (assistant_entry <$> streamed_texts [c]) ->
  client (session r) = client (session r0) ->
  _client_entered (session r) = _client_entered (session r0) ->
  follows r0 r.
Proof.
  intros Hy Hc Hm Hcl He. exists [c]. repeat split; try done.
  intros H. apply list_elem_of_singleton in H. congruence.
Qed.

Lemma on_block_follows block r : follows r (on_block block r).
Proof.
  destruct block as [t|name fp|]; unfold on_block.
  - destruct (truthy (JStr t)); [|apply follows_refl].
    apply (follows_one _ _ (text_chunk t)); try done.
  - destruct (_ || _); [|apply follows_refl].
    destruct (str_contains _ _); [|apply follows_refl].
    exists []. rewrite !app_nil_r. repeat split; try done.
    intros H. by apply elem_of_nil in H.
  - apply follows_refl.
Qed.

Lemma on_tool_result_follows r : follows r (on_tool_result schema_accepts r).
Proof.
  unfold on_tool_result.
  destruct (pending_feature_json_write (locals r)); [|apply follows_refl].
  assert (Hnil : forall l s w,
            s = session r ->
            follows r (mkRun (yielded r) (returned r) l s w)).
  { intros l s w ->. exists []. rewrite !app_nil_r. repeat split; try done.
    intros H. by apply elem_of_nil in H. }
  destruct (trigger_file (world r)) as [ct|]; [|by apply Hnil].
  destruct (try_create _ _ _ _) as [[[[chunk|]|e] s'] w'] eqn:Htry.
  - apply try_create_created in Htry as (content & row & _ & -> & _ & _ & _ & ->).
    apply (follows_one _ _ (feature_created_chunk content)); try done.
    rewrite no_text_in_feature_created. simpl. by rewrite app_nil_r.
  - apply try_create_skipped in Htry as [-> ->]. by apply Hnil.
  - apply try_create_raised in Htry as (-> & _).
    apply (follows_one _ _ (error_chunk "Failed to create feature from definition."));
      try done.
    simpl. by rewrite app_nil_r.
Qed.

Lemma on_message_follows m r : follows r (on_message schema_accepts m r).
Proof.
  destruct m as [blocks| |]; simpl.
  - revert r. induction blocks as [|b blocks IH]; intros r; simpl.
    + apply follows_refl.
    + eapply follows_trans; [apply on_block_follows | apply IH].
  - apply on_tool_result_follows.
  - apply follows_refl.
Qed.

Lemma receive_loop_follows evs r : follows r (receive_loop schema_accepts evs r).
Proof.
  revert r. induction evs as [|ev evs IH]; intros r; simpl; [apply follows_refl|].
  match goal with |- context [on_message _ _ ?r0] => set (r0' := r0) end.
  assert (H0 : follows r r0').
  { exists []. rewrite !app_nil_r. repeat split; try done.
    intros H. by apply elem_of_nil in H. }
  pose proof (on_message_follows (msg ev) r0') as H1.
  destruct (returned (on_message _ _ _)).
  - eauto using follows_trans.
  - eauto using follows_trans.
Qed.

Lemma query_claude_trace message attachments turn s w c :
  client s = Some c ->
  let d := _query_claude schema_accepts message attachments turn s w in
  (response_done ∉ chunks d) /\
  messages (final_session d) =
    messages s ++ (assistant_entry <$> streamed_texts (chunks d)) /\
  client (final_session d) =
    Some (mkClient (connected c) (sent c ++ [build_query message attachments])) /\
  _client_entered (final_session d) = _client_entered s.
Proof.
  intros Hc. unfold _query_claude. rewrite Hc.
  destruct (query_error turn) as [e|]; simpl.
  - rewrite app_nil_r. repeat split; try done. intros H. by apply elem_of_nil in H.
  - match goal with |- context [receive_loop _ _ ?r0] => set (r0' := r0) end.
    destruct (receive_loop_follows (events turn) r0')
      as (more & Hy & Hd & Hm & Hcl & He).
    simpl in *. rewrite Hy. by repeat split.
Qed.

Lemma streamed_texts_snoc_terminal cs c :
  terminal c -> streamed_texts (cs ++ [c]) = streamed_texts cs.
Proof.
  intros [-> | [e ->]]; unfold streamed_texts; rewrite omap_app; simpl;
    by rewrite app_nil_r.
Qed.

(** The chunks and the state after the marker that [start] and
    [send_message] put behind a drained [_query_claude]. *)
Lemma wrap_terminal d :
  let d' :=
    match raised d with
    | None => mkDrained (chunks d ++ [response_done]) None
                (final_session d) (final_world d)
    | Some e => mkDrained (chunks d ++ [error_chunk e]) None
                  (final_session d) (final_world d)
    end in
  exists last,
    chunks d' = chunks d ++ [last] /\ terminal last /\
    final_session d' = final_session d /\ final_world d' = final_world d.
Proof.
  destruct (raised d) as [e|]; simpl.
  - exists (error_chunk e). repeat split; try done. right. by exists e.
  - exists response_done. repeat split; try done. by left.
Qed.

Lemma send_message_trace user_message attachments turn s w c :
  client s = Some c ->
  let d := send_message schema_accepts user_message attachments turn s w in
  messages (final_session d) =
    messages s ++ user_entry user_message attachments
      :: (assistant_entry <$> streamed_texts (chunks d)) /\
  client (final_session d) =
    Some (mkClient (connected c)
            (sent c ++ [build_query user_message attachments])) /\
  _client_entered (final_session d) = _client_entered s.
Proof.
  intros Hc. unfold send_message. rewrite Hc.
  match goal with |- context [_query_claude _ _ _ _ ?s1 _] => set (s1' := s1) end.
  destruct (query_claude_trace user_message attachments turn s1' w c Hc)
    as (_ & Hm & Hcl & He).
  destruct (wrap_terminal
              (_query_claude schema_accepts user_message attachments turn s1' w))
    as (last & Hy & Hl & Hs & _).
  cbv zeta in *. rewrite Hy, Hs, (streamed_texts_snoc_terminal _ _ Hl), Hm, Hcl, He.
  split; [|done]. unfold s1'. simpl. by rewrite <- app_assoc.
Qed.

(** X1 — with a client, [send_message] appends to the history the user's
    message and then one assistant entry per text chunk it yields, in
    order, and nothing else; it makes exactly one query on the client, the
    one built from its arguments. *)
Theorem send_message_history user_message attachments turn s w c :
  client s = Some c ->
  let d := send_message schema_accepts user_message attachments turn s w in
  messages (final_session d) =
    messages s ++ user_entry user_message attachments
      :: (assistant_entry <$> streamed_texts (chunks d)) /\
  client (final_session d) =
    Some (mkClient (connected c)
            (sent c ++ [build_query user_message attachments])) /\
  _client_entered (final_session d) = _client_entered s.
Proof. apply send_message_trace. Qed.

(** X2 — [start] appends to the history one assistant entry per text chunk
    it yields and nothing else: the bootstrap message it sends to the agent
    is not recorded.  When the client opens, that message is the one query
    made on it. *)
Theorem start_history open turn s w :
  let d := start schema_accepts open turn s w in
  messages (final_session d) =
    messages s ++ (assistant_entry <$> streamed_texts (chunks d)) /\
  (skill w <> None -> open = OpenOk ->
   client (final_session d) =
     Some (mkClient true [TextQuery "I want to add a new feature."]) /\
   _client_entered (final_session d) = true).
Proof.
  unfold start. destruct (skill w) as [skill_content|].
  - destruct open as [|e|e]; cbv zeta.
    + match goal with |- context [_query_claude _ _ _ _ ?s1 ?w1] =>
        set (s1' := s1); set (w1' := w1) end.
      destruct (query_claude_trace "I want to add a new feature." None turn s1' w1'
                  (mkClient true []) eq_refl) as (_ & Hm & Hcl & He).
      destruct (wrap_terminal
                  (_query_claude schema_accepts "I want to add a new feature."
                     None turn s1' w1'))
        as (last & Hy & Hl & Hs & _).
      cbv zeta in *. rewrite Hy, Hs, (streamed_texts_snoc_terminal _ _ Hl), Hm, Hcl, He.
      done.
    + simpl. rewrite app_nil_r. split; [done|]. by intros _ [=].
    + simpl. rewrite app_nil_r. split; [done|]. by intros _ [=].
  - simpl. rewrite app_nil_r. by split.
Qed.


(** ** What creating a feature needs *)

Lemma untouched_refl r : untouched r r.
Proof. repeat split; try done. exists []. by rewrite app_nil_r. Qed.

Lemma untouched_trans r0 r1 r2 :
  untouched r0 r1 -> untouched r1 r2 -> untouched r0 r2.
Proof.
  intros (Hr1 & Hc1 & Hi1 & Hf1 & Hd1 & t1 & Hy1)
         (Hr2 & Hc2 & Hi2 & Hf2 & Hd2 & t2 & Hy2).
  repeat split; try congruence.
  exists (t1 ++ t2). by rewrite Hy2, Hy1, fmap_app, app_assoc.
Qed.

Lemma on_block_untouched block r : untouched r (on_block block r).
Proof.
  destruct block as [t|name fp|]; unfold on_block.
  - destruct (truthy (JStr t)); [|apply untouched_refl].
    repeat split; try done. by exists [t].
  - destruct (_ || _); [|apply untouched_refl].
    destruct (str_contains _ _); [|apply untouched_refl].
    repeat split; try done. exists []. by rewrite app_nil_r.
  - apply untouched_refl.
Qed.

Lemma on_block_keeps_flag block r :
  arms block = false ->
  pending_feature_json_write (locals (on_block block r))
    = pending_feature_json_write (locals r).
Proof.
  destruct block as [t|name fp|]; unfold on_block, arms.
  - by destruct (truthy (JStr t)).
  - destruct (_ || _); [|done]. simpl. by intros ->.
  - done.
Qed.

Lemma on_blocks_untouched blocks r :
  untouched r (foldl (fun r block => on_block block r) r blocks).
Proof.
  revert r. induction blocks as [|b blocks IH]; intros r; simpl.
  - apply untouched_refl.
  - eapply untouched_trans; [apply on_block_untouched | apply IH].
Qed.

Lemma on_blocks_keep_flag blocks r :
  existsb arms blocks = false ->
  pending_feature_json_write
      (locals (foldl (fun r block => on_block block r) r blocks))
    = pending_feature_json_write (locals r).
Proof.
  revert r. induction blocks as [|b blocks IH]; intros r H; simpl in *; [done|].
  apply orb_false_iff in H as [Hb Hbs]. by rewrite IH, on_block_keeps_flag.
Qed.

Lemma on_blocks_keep_world blocks r :
  world (foldl (fun r block => on_block block r) r blocks) = world r.
Proof.
  revert r. induction blocks as [|b blocks IH]; intros r; simpl; [done|].
  rewrite IH. destruct b as [t|name fp|]; unfold on_block; [| |done].
  - by destruct (truthy (JStr t)).
  - destruct (_ || _); [|done]. by destruct (str_contains _ _).
Qed.

(** Without an arming block in the stream the flag stays down and tool
    results are passed over. *)
Lemma receive_loop_unarmed evs r :
  returned r = false ->
  pending_feature_json_write (locals r) = false ->
  Forall (fun ev => event_arms ev = false) evs ->
  untouched r (receive_loop schema_accepts evs r).
Proof.
  revert r. induction evs as [|ev evs IH]; intros r Hr Hp Hevs; simpl.
  - apply untouched_refl.
  - apply Forall_cons in Hevs as [Hev Hevs].
    match goal with |- context [on_message _ _ ?r0] => set (r0' := r0) end.
    assert (H0 : untouched r r0').
    { repeat split; try done; try (unfold r0', apply_disk; simpl; by destruct (disk ev)).
      exists []. by rewrite app_nil_r. }
    assert (H1 : untouched r0' (on_message schema_accepts (msg ev) r0') /\
                 pending_feature_json_write
                   (locals (on_message schema_accepts (msg ev) r0')) = false).
    { unfold event_arms in Hev. destruct (msg ev) as [blocks| |]; simpl.
      - split; [apply on_blocks_untouched|]. by rewrite on_blocks_keep_flag.
      - unfold on_tool_result. simpl. rewrite Hp. split; [apply untouched_refl|done].
      - split; [apply untouched_refl|done]. }
    destruct H1 as [H1 Hp1].
    assert (Hr1 : returned (on_message schema_accepts (msg ev) r0') = false).
    { destruct H1 as (-> & _). exact Hr. }
    rewrite Hr1.
    eapply untouched_trans; [exact H0|].
    eapply untouched_trans; [exact H1|]. by apply IH.
Qed.

(** With no trigger file on disk, and none written during the stream, tool
    results find nothing to read. *)
Lemma receive_loop_without_trigger evs r :
  returned r = false ->
  trigger_file (world r) = None ->
  Forall (fun ev => writes_trigger ev = false) evs ->
  untouched r (receive_loop schema_accepts evs r).
Proof.
  revert r. induction evs as [|ev evs IH]; intros r Hr Ht Hevs; simpl.
  - apply untouched_refl.
  - apply Forall_cons in Hevs as [Hev Hevs].
    match goal with |- context [on_message _ _ ?r0] => set (r0' := r0) end.
    assert (Ht0 : trigger_file (world r0') = None).
    { unfold r0', apply_disk, writes_trigger in *. simpl.
      destruct (disk ev) as [[t|]|]; simpl; done. }
    assert (H0 : untouched r r0').
    { repeat split; try done; try (unfold r0', apply_disk; simpl; by destruct (disk ev)).
      exists []. by rewrite app_nil_r. }
    assert (H1 : untouched r0' (on_message schema_accepts (msg ev) r0') /\
                 trigger_file (world (on_message schema_accepts (msg ev) r0')) = None).
    { destruct (msg ev) as [blocks| |]; simpl.
      - split; [apply on_blocks_untouched|]. by rewrite on_blocks_keep_world.
      - unfold on_tool_result.
        destruct (pending_feature_json_write (locals r0')); [|split; [apply untouched_refl|done]].
        rewrite Ht0. split; [|done].
        repeat split; try done. exists []. by rewrite app_nil_r.
      - split; [apply untouched_refl|done]. }
    destruct H1 as [H1 Ht1].
    assert (Hr1 : returned (on_message schema_accepts (msg ev) r0') = false).
    { destruct H1 as (-> & _). exact Hr. }
    rewrite Hr1.
    eapply untouched_trans; [exact H0|].
    eapply untouched_trans; [exact H1|]. by apply IH.
Qed.

Lemma query_claude_untouched message attachments turn s w :
  (forall r0,
     yielded r0 = [] -> returned r0 = false ->
     pending_feature_json_write (locals r0) = false -> world r0 = w ->
     untouched r0 (receive_loop schema_accepts (events turn) r0)) ->
  let d := _query_claude schema_accepts message attachments turn s w in
  exists texts,
    chunks d = text_chunk <$> texts /\
    complete (final_session d) = complete s /\
    created_feature_id (final_session d) = created_feature_id s /\
    features (final_world d) = features w /\
    db_faults (final_world d) = db_faults w.
Proof.
  intros H. unfold _query_claude. destruct (client s) as [c|]; [|by exists []].
  destruct (query_error turn) as [e|]; [by exists []|]. simpl.
  match goal with |- context [receive_loop _ _ ?r0] => set (r0' := r0) end.
  destruct (H r0' eq_refl eq_refl eq_refl eq_refl)
    as (_ & Hc & Hi & Hf & Hd & texts & Hy).
  exists texts. by repeat split.
Qed.

Lemma wrap_text_only s w d :
  (exists texts,
     chunks d = text_chunk <$> texts /\
     complete (final_session d) = complete s /\
     created_feature_id (final_session d) = created_feature_id s /\
     features (final_world d) = features w /\
     db_faults (final_world d) = db_faults w) ->
  text_only_turn s w
    match raised d with
    | None => mkDrained (chunks d ++ [response_done]) None
                (final_session d) (final_world d)
    | Some e => mkDrained (chunks d ++ [error_chunk e]) None
                  (final_session d) (final_world d)
    end.
Proof.
  intros (texts & Hy & H).
  destruct (wrap_terminal d) as (last & Hy' & Hl & Hs & Hw). cbv zeta in *.
  exists texts, last. by rewrite Hy', Hs, Hw, Hy.
Qed.

Lemma error_only_is_text_only s w e :
  text_only_turn s w (mkDrained [error_chunk e] None s w).
Proof. exists [], (error_chunk e). repeat split; try done. right. by exists e. Qed.

(** X4 — a turn none of whose events invokes [Write] or [Edit] on a path
    containing ".new_feature.json" creates nothing, whatever the trigger
    file holds: [send_message] yields text chunks and its terminal chunk,
    and the completion fields, the rows and the store are untouched.  The
    flag does not carry over from an earlier turn. *)
Theorem unarmed_turn_creates_nothing user_message attachments turn s w :
  Forall (fun ev => event_arms ev = false) (events turn) ->
  text_only_turn s w
    (send_message schema_accepts user_message attachments turn s w).
Proof.
  intros Hevs. unfold send_message.
  destruct (client s) as [c|]; [|apply error_only_is_text_only].
  match goal with |- context [_query_claude _ _ _ _ ?s1 _] => set (s1' := s1) end.
  change (text_only_turn s w) with (text_only_turn s1' w).
  apply wrap_text_only, query_claude_untouched.
  intros r0 _ Hr Hp _. by apply receive_loop_unarmed.
Qed.

(** X5 — [start] removes a stale trigger file before the agent runs: if
    no event of the bootstrap turn writes the file, [start] creates
    nothing, whatever the file held and whatever the agent's tool
    invocations name. *)
Theorem start_ignores_stale_trigger_file open turn s w :
  Forall (fun ev => writes_trigger ev = false) (events turn) ->
  text_only_turn s w (start schema_accepts open turn s w).
Proof.
  intros Hevs. unfold start.
  destruct (skill w) as [skill_content|]; [|apply error_only_is_text_only].
  destruct open as [|e|e].
  - match goal with |- context [_query_claude _ _ _ _ ?s1 ?w1] =>
      set (s1' := s1); set (w1' := w1) end.
    change (text_only_turn s w) with (text_only_turn s1' w1').
    apply wrap_text_only, query_claude_untouched.
    intros r0 _ Hr _ Hw. apply receive_loop_without_trigger; try done.
    by rewrite Hw.
  - exists [], (error_chunk e). repeat split; try done. right. by exists e.
  - exists [], (error_chunk e). repeat split; try done. right. by exists e.
Qed.

(** X6 — a turn of [send_message] that finds no trigger file on disk and
    during which none is written creates nothing, whatever [Write] or
    [Edit] invocations it carries: tool results find nothing to read. *)
Theorem no_trigger_file_creates_nothing user_message attachments turn s w :
  trigger_file w = None ->
  Forall (fun ev => writes_trigger ev = false) (events turn) ->
  text_only_turn s w
    (send_message schema_accepts user_message attachments turn s w).
Proof.
  intros Ht Hevs. unfold send_message.
  destruct (client s) as [c|]; [|apply error_only_is_text_only].
  match goal with |- context [_query_claude _ _ _ _ ?s1 _] => set (s1' := s1) end.
  change (text_only_turn s w) with (text_only_turn s1' w).
  apply wrap_text_only, query_claude_untouched.
  intros r0 _ Hr _ Hw. apply receive_loop_without_trigger; try done.
  by rewrite Hw.
Qed.

(** Only a dict gets past [data.get]. *)
Lemma create_needs_a_dict data w :
  is_dict data = false ->
  exists e, _create_feature_in_db schema_accepts data w = (Raise e, w).
Proof.
  intros H. unfold _create_feature_in_db.
  destruct data; try discriminate; simpl; by eexists.
Qed.

(** X7 — a trigger file that does not decode to a JSON object never
    creates a feature, even when it passes the check of the required
    fields (a list or a string that contains both names): the tool result
    yields nothing or the one error chunk, clears the flag, and leaves
    the session, the files and the store as they were. *)
Theorem non_object_definition_creates_nothing content_text r :
  pending_feature_json_write (locals r) = true ->
  trigger_file (world r) = Some content_text ->
  (forall content, content_text = Some content -> is_dict content = false) ->
  let r' := on_tool_result schema_accepts r in
  (yielded r' = yielded r \/
   yielded r' = yielded r ++ [error_chunk "Failed to create feature from definition."]) /\
  returned r' = returned r /\
  pending_feature_json_write (locals r') = false /\
  session r' = session r /\ world r' = world r.
Proof.
  intros Hp Ht Hnd. unfold on_tool_result. rewrite Hp, Ht. unfold try_create.
  destruct content_text as [content|]; [|simpl; by repeat split; try right].
  specialize (Hnd content eq_refl). unfold bind.
  destruct (py_in "name" content) as [[]|e1]; simpl.
  - destruct (py_in "description" content) as [[]|e2]; simpl.
    + destruct (create_needs_a_dict content (world r) Hnd) as [e ->]. simpl.
      by repeat split; try right.
    + by repeat split; try left.
    + by repeat split; try right.
  - by repeat split; try left.
  - by repeat split; try right.
Qed.

(** X8 — whenever [_create_feature_in_db] returns, its argument is a dict
    with name and description, the schema accepted the arguments built
    from it, and the row is the one those arguments give: priority is the
    integer passed to the schema (1 unless the dict holds a non-zero
    integer), never one derived from the rows already in the store. *)
Theorem created_row_comes_from_the_definition data w row w' :
  _create_feature_in_db schema_accepts data w = (Ok row, w') ->
  exists fields name description,
    data = JObj fields /\
    dict_get "name" fields = Some name /\
    dict_get "description" fields = Some description /\
    schema_accepts (schema_arguments fields name description) = true /\
    row = inserted_row fields name description w /\
    features w' = features w ++ [row].
Proof.
  intros H. destruct data as [|b|n|f|str|items|fields];
    try (unfold _create_feature_in_db in H; simpl in H; discriminate).
  unfold _create_feature_in_db, py_get, py_getitem, bind in H.
  destruct (dict_get "name" fields) as [name|] eqn:Hn; [|discriminate].
  destruct (dict_get "description" fields) as [description|] eqn:Hd; [|discriminate].
  change (FeatureCreate.mk _ _ _ _ _) with (schema_arguments fields name description) in H.
  destruct (schema_accepts _) eqn:Hs; [|discriminate].
  exists fields, name, description. repeat split; try done.
  - destruct (db_faults w) as [|[] faults]; simpl in H; by inversion H.
  - destruct (db_faults w) as [|[] faults]; simpl in H; inversion H; by subst.
Qed.

(** ** Closing and failing to open *)

(** X9 — [close] is idempotent and does the same whether or not
    [__aexit__] raises; afterwards the session holds no entered client,
    and its history and completion fields are as they were. *)
Theorem close_is_idempotent b b' s :
  close b' (close b s) = close b s /\
  close true s = close false s /\
  holds_open_client (close b s) = false /\
  messages (close b s) = messages s /\
  complete (close b s) = complete s /\
  created_feature_id (close b s) = created_feature_id s.
Proof.
  unfold close, holds_open_client.
  destruct (client s) as [c|] eqn:Hc; [destruct (_client_entered s) eqn:He|];
    simpl; rewrite ?Hc, ?He; done.
Qed.

(** X10 — after [close] has released an entered client, [send_message]
    yields the one error chunk "Session not initialized" and changes
    nothing. *)
Theorem send_message_after_close b user_message attachments turn s w c :
  client s = Some c ->
  _client_entered s = true ->
  send_message schema_accepts user_message attachments turn (close b s) w =
    mkDrained [error_chunk "Session not initialized"] None (close b s) w.
Proof.
  intros Hc He. unfold send_message, close. by rewrite Hc, He.
Qed.

(** X11 — when [__aenter__] raises, [start] yields the one error chunk
    with the exception's text, having removed the trigger file and written
    the settings file; the session is left with a client that was never
    entered.  [close] does not release that client, and a later
    [send_message] does not answer "Session not initialized": it records
    the user's message and makes the query on the unentered client. *)
Theorem failed_enter_leaves_an_unentered_client e turn0 s w skill_content
    b user_message attachments turn w1 :
  skill w = Some skill_content ->
  _client_entered s = false ->
  let d := start schema_accepts (EnterRaises e) turn0 s w in
  let s' := final_session d in
  chunks d = [error_chunk e] /\
  trigger_file (final_world d) = None /\
  settings_file (final_world d) = Some security_settings /\
  features (final_world d) = features w /\
  client s' = Some (mkClient false []) /\
  _client_entered s' = false /\
  close b s' = s' /\
  let d1 := send_message schema_accepts user_message attachments turn s' w1 in
  messages (final_session d1) =
    messages s ++ user_entry user_message attachments
      :: (assistant_entry <$> streamed_texts (chunks d1)) /\
  client (final_session d1) =
    Some (mkClient false [build_query user_message attachments]).
Proof.
  intros Hs He d s'.
  assert (Hd : d = mkDrained [error_chunk e] None
                     (set_client (Some (mkClient false [])) s)
                     (set_settings_file (Some security_settings)
                        (set_trigger_file None w))).
  { unfold d, start. by rewrite Hs. }
  unfold s'. rewrite Hd. simpl.
  repeat split; try done.
  - unfold close. simpl. by rewrite He.
  - by destruct (send_message_trace user_message attachments turn
                   (set_client (Some (mkClient false [])) s) w1
                   (mkClient false []) eq_refl) as (-> & _).
  - by destruct (send_message_trace user_message attachments turn
                   (set_client (Some (mkClient false [])) s) w1
                   (mkClient false []) eq_refl) as (_ & -> & _).
Qed.

(** Without the skill file [start] yields the one error chunk "Skill not
    found" and touches nothing: the stale trigger file stays, no settings
    file is written, no client is made. *)
Lemma start_without_skill open turn s w :
  skill w = None ->
  start schema_accepts open turn s w =
    mkDrained [error_chunk "Skill not found"] None s w.
Proof. intros H. unfold start. by rewrite H. Qed.

(** ** Ends of a turn *)



End SessionProperties.

(** ** The registry's operations *)

Lemma update_at_lookup a f reg b :
  heap (update_at a f reg) !! b =
    if decide (b = a) then f <$> heap reg !! b else heap reg !! b.
Proof.
  unfold update_at. destruct (heap reg !! a) as [s|] eqn:Ha; simpl.
  - case_decide as Hab.
    + subst. rewrite list_lookup_insert_eq by (by eapply lookup_lt_Some).
      by rewrite Ha.
    + by rewrite list_lookup_insert_ne.
  - case_decide as Hab; [|done]. subst. by rewrite Ha.
Qed.

(** X14 — [create_session] binds the name to a fresh, unstarted session
    and returns it; the other names keep their sessions, and every session
    object but the one evicted is as it was. *)
Theorem create_session_registers b name dir reg :
  let new := (create_session b name dir reg).1 in
  let reg' := (create_session b name dir reg).2 in
  get_session name reg' = Some new /\
  heap reg !! new = None /\
  heap reg' !! new = Some (new_session name dir) /\
  (forall other, other <> name -> get_session other reg' = get_session other reg) /\
  (forall a, get_session name reg <> Some a -> a <> new ->
             heap reg' !! a = heap reg !! a).
Proof.
  unfold create_session, create_session_locked, get_session.
  destruct (_sessions reg !! name) as [old|] eqn:Hold; simpl.
  - rewrite update_at_sessions. simpl. rewrite lookup_insert_eq.
    split; [done|]. split; [by apply lookup_ge_None|].
    split.
    { rewrite update_at_lookup. simpl.
      case_decide; by rewrite lookup_app_r, Nat.sub_diag. }
    split.
    { intros other Hne. by rewrite lookup_insert_ne, lookup_delete_ne. }
    intros a Ha Hnew. rewrite update_at_lookup. simpl.
    case_decide as H; [congruence|].
    destruct (decide (a < length (heap reg))) as [Hlt|Hge].
    + by rewrite lookup_app_l.
    + rewrite (lookup_ge_None_2 (heap reg)) by lia.
      apply lookup_ge_None_2. rewrite length_app. simpl. lia.
  - rewrite lookup_insert_eq.
    split; [done|]. split; [by apply lookup_ge_None|].
    split; [by rewrite lookup_app_r, Nat.sub_diag|].
    split.
    { intros other Hne. by rewrite lookup_insert_ne, lookup_delete_ne. }
    intros a _ Hnew.
    destruct (decide (a < length (heap reg))) as [Hlt|Hge].
    + by rewrite lookup_app_l.
    + rewrite (lookup_ge_None_2 (heap reg)) by lia.
      apply lookup_ge_None_2. rewrite length_app. simpl. lia.
Qed.

(** X15 — [remove_session] unbinds the name and closes the session it was
    bound to; the other names and the other session objects are as they
    were, and removing a name that is not bound changes nothing. *)
Theorem remove_session_unregisters b name reg :
  let reg' := remove_session b name reg in
  get_session name reg' = None /\
  (forall other, other <> name -> get_session other reg' = get_session other reg) /\
  (forall a, get_session name reg = Some a ->
             heap reg' !! a = close b <$> heap reg !! a) /\
  (forall a, get_session name reg <> Some a -> heap reg' !! a = heap reg !! a) /\
  (get_session name reg = None -> reg' = reg).
Proof.
  unfold remove_session, get_session.
  destruct (_sessions reg !! name) as [old|] eqn:Hold; simpl.
  - rewrite update_at_sessions. simpl. rewrite lookup_delete_eq.
    split; [done|]. split; [intros other Hne; by rewrite lookup_delete_ne|].
    split.
    { intros a [= <-]. rewrite update_at_lookup. simpl. by case_decide. }
    split; [|done].
    intros a Ha. rewrite update_at_lookup. simpl. case_decide; [congruence|done].
  - rewrite lookup_delete_eq.
    split; [done|]. split; [intros other Hne; by rewrite lookup_delete_ne|].
    split; [done|]. split; [done|].
    intros _. destruct reg as [m hp]. simpl in *. f_equal. by apply delete_id.
Qed.

Lemma close_twice b s : close b (close b s) = close b s.
Proof.
  unfold close.
  destruct (client s) eqn:Hc; [destruct (_client_entered s) eqn:He|];
    simpl; rewrite ?Hc, ?He; done.
Qed.

Lemma close_all_lookup b l reg a :
  heap (foldl (fun reg a => update_at a (close b) reg) reg l) !! a =
    if decide (a ∈ l) then close b <$> heap reg !! a else heap reg !! a.
Proof.
  revert reg. induction l as [|x l IH]; intros reg; cbn [foldl].
  - destruct (decide (a ∈ [])) as [H|H]; [by apply elem_of_nil in H | done].
  - rewrite IH, update_at_lookup.
    destruct (decide (a ∈ l)) as [Hin|Hnin];
      destruct (decide (a = x)) as [->|Hax];
      destruct (decide (_ ∈ x :: l)) as [Hc|Hc]; try done.
    + destruct (heap reg !! x) as [s|]; simpl; [|done]. by rewrite close_twice.
    + exfalso. apply Hc, elem_of_cons. by left.
    + exfalso. apply Hc, elem_of_cons. by right.
    + exfalso. apply Hc, elem_of_cons. by left.
    + apply elem_of_cons in Hc as [?|?]; done.
Qed.

(** X16 — [cleanup_all_sessions] empties the map and closes every session
    that was bound to a name; the session objects bound to no name are as
    they were. *)
Theorem cleanup_all_sessions_closes_all b reg :
  let reg' := cleanup_all_sessions b reg in
  _sessions reg' = ∅ /\
  (forall name a, get_session name reg = Some a ->
                  heap reg' !! a = close b <$> heap reg !! a) /\
  (forall a, (forall name, get_session name reg <> Some a) ->
             heap reg' !! a = heap reg !! a).
Proof.
  split; [apply cleanup_all_sessions_empties|].
  unfold cleanup_all_sessions, get_session. split.
  - intros name a Ha. rewrite close_all_lookup. simpl.
    rewrite decide_True; [done|].
    apply list_elem_of_fmap. exists (name, a). split; [done|].
    by apply elem_of_map_to_list.
  - intros a Ha. rewrite close_all_lookup. simpl.
    rewrite decide_False; [done|]. intros Hin.
    apply list_elem_of_fmap in Hin as ([name a'] & -> & Hin).
    apply elem_of_map_to_list in Hin. by apply (Ha name).
Qed.

(** ** The handler's frames *)

Lemma str_eq_value_false k x : x <> JStr k -> str_eq_value k x = false.
Proof.
  intros H. destruct x as [| | | |s0| |]; try done. simpl.
  destruct (String.eqb_spec k s0) as [->|]; [done|done].
Qed.



Section FrameProperties.

Variable schema_accepts : FeatureCreate.t -> bool.
Variables project path : string.

(** X17 — a frame whose type is "ping", whatever else it carries, is
    answered with a pong and touches neither the registry, nor a session,
    nor the world. *)
Theorem ping_touches_nothing fields env h :
  dict_get "type" fields = Some (JStr "ping") ->
  on_frame schema_accepts project path (Some (JObj fields)) env h =
    ([JObj [("type", JStr "pong")]], Continue, h).
Proof. intros H. unfold on_frame, py_get. by rewrite H. Qed.

(** X18 — a JSON object whose type is none of "ping", "start" and
    "message" (or that has no type) is passed over: no frame is sent,
    nothing changes, the loop goes on. *)
Theorem unknown_frame_is_ignored fields env h :
  default JNull (dict_get "type" fields) <> JStr "ping" ->
  default JNull (dict_get "type" fields) <> JStr "start" ->
  default JNull (dict_get "type" fields) <> JStr "message" ->
  on_frame schema_accepts project path (Some (JObj fields)) env h = ([], Continue, h).
Proof.
  intros Hp Hs Hm. unfold on_frame, py_get.
  by rewrite (str_eq_value_false _ _ Hp), (str_eq_value_false _ _ Hs),
             (str_eq_value_false _ _ Hm).
Qed.

(** X19 — a "message" frame when the handler has no session and the
    registry holds none for the project is answered with the one error
    frame, before its content is looked at; nothing changes and the loop
    goes on. *)
Theorem message_without_session fields env h :
  dict_get "type" fields = Some (JStr "message") ->
  bound_session project h = None ->
  on_frame schema_accepts project path (Some (JObj fields)) env h =
    ([error_chunk "No active session. Send 'start' first."], Continue, h).
Proof.
  intros Ht Hb. unfold on_frame, py_get. rewrite Ht. simpl.
  unfold bound_session in Hb. by rewrite Hb.
Qed.


(** X21 — a frame that is valid JSON but not an object ends the handler:
    the exception of [message.get] leaves the loop, one error frame with
    its text is sent, and the frames after it are never handled. *)
Theorem non_object_frame_ends_the_handler message env rest h :
  is_dict message = false ->
  let e := "'" +:+ type_name message +:+ "' object has no attribute 'get'" in
  receive_frames schema_accepts project path ((Some message, env) :: rest) h =
    ([error_chunk e], Failed e, h).
Proof. intros H. by destruct message. Qed.

(** X22 — so does a "message" frame whose content is not a string, once
    a session is found for it: the exception of [strip] leaves the loop. *)
Theorem non_string_content_ends_the_handler fields v a env rest h :
  dict_get "type" fields = Some (JStr "message") ->
  bound_session project h = Some a ->
  dict_get "content" fields = Some v ->
  (forall c, v <> JStr c) ->
  let e := "'" +:+ type_name v +:+ "' object has no attribute 'strip'" in
  receive_frames schema_accepts project path ((Some (JObj fields), env) :: rest) h =
    ([error_chunk e], Failed e,
     mkHandler (registry h) (project_world h) (Some a)).
Proof.
  intros Ht Hb Hc Hv. cbn [receive_frames]. unfold on_frame, py_get.
  rewrite Ht. simpl. unfold bound_session in Hb. rewrite Hb.
  unfold bind. rewrite Hc. simpl.
  destruct v as [| | | |c| |]; try done. by destruct (Hv c).
Qed.

(** X23 — when the handler ends on an exception, the last frame it sent
    is the error frame with the exception's text. *)
Theorem failure_is_reported frames h out e h' :
  receive_frames schema_accepts project path frames h = (out, Failed e, h') ->
  exists init, out = init ++ [error_chunk e].
Proof.
  revert h out. induction frames as [|[data env] frames IH]; intros h out; simpl.
  - discriminate.
  - destruct (on_frame schema_accepts project path data env h) as [[o [|e1]] h1].
    + destruct (receive_frames schema_accepts project path frames h1) as [[o' e'] h2] eqn:Hrec.
      intros [= <- -> <-]. destruct (IH h1 o' Hrec) as [init ->].
      exists (o ++ init). by rewrite app_assoc.
    + intros [= <- <- <-]. by exists o.
Qed.

(** Handling frames one after another composes. *)
Lemma receive_frames_app frames frames' h :
  (receive_frames schema_accepts project path frames h).1.2 = Disconnected ->
  receive_frames schema_accepts project path (frames ++ frames') h =
    let '(out, _, h1) := receive_frames schema_accepts project path frames h in
    let '(out', e, h2) := receive_frames schema_accepts project path frames' h1 in
    (out ++ out', e, h2).
Proof.
  revert h. induction frames as [|[data env] frames IH]; intros h; simpl.
  - intros _. by destruct (receive_frames schema_accepts project path frames' h) as [[o e] h'].
  - destruct (on_frame schema_accepts project path data env h) as [[o [|e1]] h1]; [|discriminate].
    intros H. specialize (IH h1).
    destruct (receive_frames schema_accepts project path frames h1) as [[o1 e1] h2]. simpl in *.
    rewrite IH by done.
    destruct (receive_frames schema_accepts project path frames' h2) as [[o2 e2] h3].
    by rewrite app_assoc.
Qed.

Lemma create_session_heap b name dir reg :
  let reg' := (create_session b name dir reg).2 in
  (create_session b name dir reg).1 = length (heap reg) /\
  _sessions reg' !! name = Some (length (heap reg)) /\
  heap reg' !! length (heap reg) = Some (new_session name dir) /\
  (forall old s, _sessions reg !! name = Some old -> heap reg !! old = Some s ->
                 heap reg' !! old = Some (close b s)).
Proof.
  unfold create_session, create_session_locked.
  destruct (_sessions reg !! name) as [old|] eqn:Hold; simpl.
  - rewrite update_at_sessions. simpl. rewrite lookup_insert_eq.
    split; [done|]. split; [done|]. split.
    + rewrite update_at_lookup. simpl.
      case_decide; by rewrite lookup_app_r, Nat.sub_diag.
    + intros old' s [= <-] Hs. rewrite update_at_lookup. simpl.
      rewrite decide_True by done.
      by rewrite (lookup_app_l_Some _ _ _ _ Hs).
  - rewrite lookup_insert_eq. split; [done|]. split; [done|].
    split; [by rewrite lookup_app_r, Nat.sub_diag | done].
Qed.


Lemma message_to_clientless_session fields content a s env h :
  dict_get "type" fields = Some (JStr "message") ->
  default (JStr "") (dict_get "content" fields) = JStr content ->
  strip content <> "" ->
  local_session h = Some a ->
  heap (registry h) !! a = Some s ->
  client s = None ->
  on_frame schema_accepts project path (Some (JObj fields)) env h =
    ([error_chunk "Session not initialized"], Continue, h).
Proof.
  intros Ht Hc Hne Hl Hs Hcl. unfold on_frame, py_get. rewrite Ht. simpl.
  rewrite Hl. unfold bind. rewrite Hc. simpl.
  destruct (strip content) as [|ch rest] eqn:Hstrip; [done|]. simpl.
  unfold relay. simpl. rewrite Hs. unfold send_message. rewrite Hcl. simpl.
  rewrite list_insert_id by done.
  destruct h as [[m hp] w l]. simpl in *. by subst.
Qed.

(** X25 — a handler keeps the session it started even after another
    connection's [create_session] has replaced it in the registry: its
    next message goes to the old, closed session and is answered with the
    one error frame "Session not initialized", and the new session is not
    used. *)
Theorem replaced_session_is_still_addressed fields content a s b dir env h :
  dict_get "type" fields = Some (JStr "message") ->
  default (JStr "") (dict_get "content" fields) = JStr content ->
  strip content <> "" ->
  local_session h = Some a ->
  get_session project (registry h) = Some a ->
  heap (registry h) !! a = Some s ->
  holds_open_client s = true ->
  let reg' := (create_session b project dir (registry h)).2 in
  let h' := mkHandler reg' (project_world h) (Some a) in
  get_session project reg' = Some (length (heap (registry h))) /\
  a <> length (heap (registry h)) /\
  on_frame schema_accepts project path (Some (JObj fields)) env h' =
    ([error_chunk "Session not initialized"], Continue, h').
Proof.
  intros Ht Hc Hne Hl Hg Hs Ho reg' h'.
  destruct (create_session_heap b project dir (registry h))
    as (_ & Hmap & _ & Hold).
  split; [exact Hmap|]. split.
  { apply lookup_lt_Some in Hs. lia. }
  apply (message_to_clientless_session fields content a (close b s)); try done.
  - by apply Hold.
  - unfold holds_open_client in Ho. unfold close.
    destruct (client s); [|done]. by rewrite Ho.
Qed.





End FrameProperties.

(** X27 — the registry's invariant (every name is bound to a session made
    for that name, so no session is bound to two names) is kept by
    [create_session], [remove_session], [cleanup_all_sessions] and by
    everything a connection does. *)
Theorem registry_invariant_is_kept reg :
  registry_invariant reg ->
  (forall b name dir, registry_invariant (create_session b name dir reg).2) /\
  (forall b name, registry_invariant (remove_session b name reg)) /\
  (forall b, registry_invariant (cleanup_all_sessions b reg)) /\
  (forall schema_accepts project path frames w l,
     registry_invariant
       (registry (receive_frames schema_accepts project path frames
                    (mkHandler reg w l)).2)).
Proof.
  intros Hinv. split; [|split; [|split]].
  - intros b name dir. by apply create_session_invariant.
  - intros b name. by apply remove_session_invariant.
  - intros b. apply cleanup_all_sessions_invariant.
  - intros schema_accepts project path frames w l.
    by apply receive_frames_invariant.
Qed.

(** ** Concrete runs of the further properties *)

Lemma send_message_history_witness :
  let d := send_message typed_schema "go" None talking_turn
             (open_session "p" "/p") empty_store in
  messages (final_session d) =
    messages (open_session "p" "/p") ++ user_entry "go" None
      :: (assistant_entry <$> streamed_texts (chunks d)) /\
  client (final_session d) =
    Some (mkClient true ([] ++ [build_query "go" None])) /\
  _client_entered (final_session d) = _client_entered (open_session "p" "/p").
Proof.
  apply (send_message_history typed_schema "go" None talking_turn
           (open_session "p" "/p") empty_store (mkClient true [])).
  reflexivity.
Defined.

Example talking_turn_history :
  let d := send_message typed_schema "go" None talking_turn
             (open_session "p" "/p") empty_store in
  chunks d = [text_chunk "Hello"; text_chunk "What should it do?"; response_done] /\
  (content <$> messages (final_session d)) = ["go"; "Hello"; "What should it do?"].
Proof. split; reflexivity. Qed.

Lemma unarmed_turn_creates_nothing_witness :
  text_only_turn (open_session "p" "/p") world_with_definition
    (send_message typed_schema "go" None talking_turn
       (open_session "p" "/p") world_with_definition).
Proof.
  apply (unarmed_turn_creates_nothing typed_schema "go" None talking_turn
           (open_session "p" "/p") world_with_definition).
  repeat constructor.
Defined.

Lemma start_ignores_stale_trigger_file_witness :
  text_only_turn (new_session "p" "/p") world_with_definition
    (start typed_schema OpenOk failed_write_turn
       (new_session "p" "/p") world_with_definition).
Proof.
  apply (start_ignores_stale_trigger_file typed_schema OpenOk failed_write_turn
           (new_session "p" "/p") world_with_definition).
  repeat constructor.
Defined.

Lemma no_trigger_file_creates_nothing_witness :
  text_only_turn (open_session "p" "/p") empty_store
    (send_message typed_schema "go" None failed_write_turn
       (open_session "p" "/p") empty_store).
Proof.
  apply (no_trigger_file_creates_nothing typed_schema "go" None failed_write_turn
           (open_session "p" "/p") empty_store);
    [reflexivity | repeat constructor].
Defined.

Lemma non_object_definition_creates_nothing_witness :
  let r' := on_tool_result typed_schema armed_on_list in
  (yielded r' = yielded armed_on_list \/
   yielded r' = yielded armed_on_list ++
                  [error_chunk "Failed to create feature from definition."]) /\
  returned r' = returned armed_on_list /\
  pending_feature_json_write (locals r') = false /\
  session r' = session armed_on_list /\ world r' = world armed_on_list.
Proof.
  apply (non_object_definition_creates_nothing typed_schema
           (Some field_names_as_list) armed_on_list);
    [reflexivity | reflexivity | intros content [= <-]; reflexivity].
Defined.

(** The list of the two field names passes the check of the required
    fields and fails in [_create_feature_in_db]: one error chunk. *)
Example list_of_field_names_yields_an_error :
  yielded (on_tool_result typed_schema armed_on_list) =
    [error_chunk "Failed to create feature from definition."].
Proof. reflexivity. Qed.

Lemma created_row_comes_from_the_definition_witness :
  exists fields name description,
    definition_XY = JObj fields /\
    dict_get "name" fields = Some name /\
    dict_get "description" fields = Some description /\
    typed_schema (schema_arguments fields name description) = true /\
    Feature.mk 2 1 (JStr "General") (JStr "X") (JStr "Y") (JArr []) false
      = inserted_row fields name description store_with_priority_3 /\
    features (set_features
                (features store_with_priority_3 ++
                   [Feature.mk 2 1 (JStr "General") (JStr "X") (JStr "Y") (JArr []) false])
                store_with_priority_3)
      = features store_with_priority_3 ++
          [Feature.mk 2 1 (JStr "General") (JStr "X") (JStr "Y") (JArr []) false].
Proof.
  apply (created_row_comes_from_the_definition typed_schema definition_XY
           store_with_priority_3).
  reflexivity.
Defined.

(** A priority given as a word is not an integer: the row gets the
    default 1, and the greatest priority of the store is not consulted. *)
Example priority_given_as_a_word :
  (Feature.priority <$> last (features
      (snd (_create_feature_in_db typed_schema
              (JObj [("name", JStr "X"); ("description", JStr "Y");
                     ("priority", JStr "High")])
              store_with_priority_3))))
    = Some 1%Z.
Proof. reflexivity. Qed.

Lemma send_message_after_close_witness :
  send_message typed_schema "go" None talking_turn
      (close false (open_session "p" "/p")) empty_store =
    mkDrained [error_chunk "Session not initialized"] None
      (close false (open_session "p" "/p")) empty_store.
Proof.
  apply (send_message_after_close typed_schema false "go" None talking_turn
           (open_session "p" "/p") empty_store (mkClient true []));
    reflexivity.
Defined.

Lemma failed_enter_leaves_an_unentered_client_witness :
  let d := start typed_schema (EnterRaises "CLI not found") talking_turn
             (new_session "p" "/p") world_with_definition in
  let s' := final_session d in
  chunks d = [error_chunk "CLI not found"] /\
  trigger_file (final_world d) = None /\
  settings_file (final_world d) = Some security_settings /\
  features (final_world d) = features world_with_definition /\
  client s' = Some (mkClient false []) /\
  _client_entered s' = false /\
  close true s' = s' /\
  let d1 := send_message typed_schema "go" None talking_turn s' empty_store in
  messages (final_session d1) =
    messages (new_session "p" "/p") ++ user_entry "go" None
      :: (assistant_entry <$> streamed_texts (chunks d1)) /\
  client (final_session d1) = Some (mkClient false [build_query "go" None]).
Proof.
  apply (failed_enter_leaves_an_unentered_client typed_schema "CLI not found"
           talking_turn (new_session "p" "/p") world_with_definition "skill"
           true "go" None talking_turn empty_store);
    reflexivity.
Defined.


Lemma ping_touches_nothing_witness :
  on_frame typed_schema "p" "/p"
      (Some (JObj [("type", JStr "ping"); ("id", JInt 7)])) quiet_env handler_of_p =
    ([JObj [("type", JStr "pong")]], Continue, handler_of_p).
Proof.
  apply (ping_touches_nothing typed_schema "p" "/p"
           [("type", JStr "ping"); ("id", JInt 7)] quiet_env handler_of_p).
  reflexivity.
Defined.

Lemma unknown_frame_is_ignored_witness :
  on_frame typed_schema "p" "/p"
      (Some (JObj [("type", JStr "stop")])) quiet_env handler_of_p =
    ([], Continue, handler_of_p).
Proof.
  apply (unknown_frame_is_ignored typed_schema "p" "/p"
           [("type", JStr "stop")] quiet_env handler_of_p);
    simpl; congruence.
Defined.

Lemma message_without_session_witness :
  on_frame typed_schema "p" "/p"
      (Some (JObj [("type", JStr "message"); ("content", JInt 5)]))
      quiet_env fresh_handler =
    ([error_chunk "No active session. Send 'start' first."], Continue,
     fresh_handler).
Proof.
  apply (message_without_session typed_schema "p" "/p"
           [("type", JStr "message"); ("content", JInt 5)] quiet_env fresh_handler);
    reflexivity.
Defined.


Lemma non_object_frame_ends_the_handler_witness :
  receive_frames typed_schema "p" "/p"
      [(Some (JArr [JInt 1]), quiet_env);
       (Some (JObj [("type", JStr "ping")]), quiet_env)]
      handler_of_p =
    ([error_chunk "'list' object has no attribute 'get'"],
     Failed "'list' object has no attribute 'get'", handler_of_p).
Proof.
  apply (non_object_frame_ends_the_handler typed_schema "p" "/p"
           (JArr [JInt 1]) quiet_env
           [(Some (JObj [("type", JStr "ping")]), quiet_env)] handler_of_p).
  reflexivity.
Defined.

Lemma non_string_content_ends_the_handler_witness :
  receive_frames typed_schema "p" "/p"
      [(Some (JObj [("type", JStr "message"); ("content", JInt 5)]), quiet_env);
       (Some (JObj [("type", JStr "ping")]), quiet_env)]
      handler_of_p =
    ([error_chunk "'int' object has no attribute 'strip'"],
     Failed "'int' object has no attribute 'strip'", handler_of_p).
Proof.
  apply (non_string_content_ends_the_handler typed_schema "p" "/p"
           [("type", JStr "message"); ("content", JInt 5)] (JInt 5) 0 quiet_env
           [(Some (JObj [("type", JStr "ping")]), quiet_env)] handler_of_p);
    [reflexivity | reflexivity | reflexivity | congruence].
Defined.

Lemma failure_is_reported_witness :
  exists init,
    [error_chunk "Invalid JSON"; error_chunk "'list' object has no attribute 'get'"]
      = init ++ [error_chunk "'list' object has no attribute 'get'"].
Proof.
  apply (failure_is_reported typed_schema "p" "/p"
           [(None, quiet_env); (Some (JArr []), quiet_env)] handler_of_p
           [error_chunk "Invalid JSON";
            error_chunk "'list' object has no attribute 'get'"]
           "'list' object has no attribute 'get'" handler_of_p).
  reflexivity.
Defined.


Lemma replaced_session_is_still_addressed_witness :
  let reg' := (create_session false "p" "/p" registry_with_p).2 in
  let h' := mkHandler reg' empty_store (Some 0) in
  get_session "p" reg' = Some 1 /\
  0 <> 1 /\
  on_frame typed_schema "p" "/p"
      (Some (JObj [("type", JStr "message"); ("content", JStr " hello ")]))
      quiet_env h' =
    ([error_chunk "Session not initialized"], Continue, h').
Proof.
  apply (replaced_session_is_still_addressed typed_schema "p" "/p"
           [("type", JStr "message"); ("content", JStr " hello ")] " hello "
           0 (open_session "p" "/p") false "/p" quiet_env handler_of_p);
    [reflexivity | reflexivity | vm_compute; congruence | reflexivity
    | reflexivity | reflexivity | reflexivity].
Defined.

Lemma registry_invariant_is_kept_witness :
  (forall b name dir,
     registry_invariant (create_session b name dir registry_with_p).2) /\
  (forall b name, registry_invariant (remove_session b name registry_with_p)) /\
  (forall b, registry_invariant (cleanup_all_sessions b registry_with_p)) /\
  (forall schema_accepts project path frames w l,
     registry_invariant
       (registry (receive_frames schema_accepts project path frames
                    (mkHandler registry_with_p w l)).2)).
Proof.
  apply (registry_invariant_is_kept registry_with_p).
  exact registry_with_p_invariant.
Defined.
